(** * workbox-core: the fetch wrapper ([_private/fetchWrapper.ts])

    A shallow embedding of [wrappedFetch] and of the [WorkboxError]
    constructor, and the properties of the request pipeline: the
    navigation-preload short-circuit, the [requestWillFetch] chain, the
    transmission, the [fetchDidSucceed] chain and the [fetchDidFail] chain.

    Modelling decisions.
    - The function is [async]; every [await] is modelled by the settled
      outcome of what is awaited (a value or a thrown or rejected value), so one
      invocation is a sequential computation in a state-and-exception monad.
    - [Request] and [Response] objects live in a store ([heap]), because
      [clone()] creates a new object and because a body is a single-read
      stream: following the Fetch standard, [clone()] throws a [TypeError]
      on an object whose body has been used. The other values of the model
      (undefined, null, strings, errors) have no [clone] method. Plugin
      hooks and the host [fetch] are arbitrary store transformers; the URL
      parser behind [new Request(url)] is a parameter.
    - The calls that leave the function (hooks, host [fetch], [clone()]) are
      recorded in a trace, in program order. The trace is instrumentation
      only: no branch of the model reads it.
    - The production build is modelled: the blocks guarded by
      [process.env.NODE_ENV !== 'production'] only call the logger and the
      assertion module. *)

From stdpp Require Import base list strings.

#[local] Set Warnings "-notation-for-abbreviation,-register-all".

Local Open Scope string_scope.
Local Open Scope list_scope.

(** ** Values *)

Definition loc := nat.

(** [WorkboxErrorDetails] of WorkboxError.ts: every member is optional.
    [expectedClass] (a constructor function) is recorded by its name. *)
Record WorkboxErrorDetails (V : Type) : Type := mkDetails {
  cacheNameId : option string;
  className : option string;
  expectedClass : option string;
  expectedMethod : option string;
  expectedType : option string;
  funcName : option string;
  isReturnValueProblem : option bool;
  method : option string;
  moduleName : option string;
  paramName : option string;
  thrownError : option V;
  validValueDescription : option string;
  value : option string;
  url : option string;
}.

Arguments mkDetails {V}.
Arguments thrownError {V}.

(** The object built by [new WorkboxError(errorCode, details)]: the [message]
    of the [Error] superclass, and the two members the constructor sets. *)
Record WorkboxError (V : Type) : Type := mkWorkboxError {
  message : string;
  name : string;
  details : WorkboxErrorDetails V;
}.

Arguments mkWorkboxError {V}.
Arguments message {V}.
Arguments name {V}.
Arguments details {V}.

(** The JavaScript values that flow through [wrappedFetch]. Objects are
    references, so equality of values is reference identity. *)
Inductive jsval : Type :=
| VUndefined
| VNull
| VString (s : string)
| VRequest (l : loc)          (* a Request object of the store *)
| VResponse (l : loc)         (* a Response object of the store *)
| VError (id : nat)           (* an Error object thrown by a hook or by fetch *)
| VTypeError (why : string)   (* a TypeError raised by the platform *)
| VWorkboxError (e : WorkboxError jsval).

(** [if (v)]: JavaScript truthiness. *)
Definition truthy (v : jsval) : bool :=
  match v with
  | VUndefined | VNull => false
  | VString s => negb (String.eqb s "")
  | _ => true
  end.

(** ** The store of [Request] and [Response] objects *)

Record Request : Type := mkRequest {
  req_url : string;
  req_method : string;
  req_mode : string;
  req_body : option string;
  req_bodyUsed : bool;
}.

Record Response : Type := mkResponse {
  resp_status : nat;
  resp_body : option string;
  resp_bodyUsed : bool;
}.

Inductive object : Type :=
| ORequest (r : Request)
| OResponse (p : Response).

Coercion ORequest : Request >-> object.
Coercion OResponse : Response >-> object.

Notation heap := (list object).

(** The member [bodyUsed]. *)
Definition bodyUsed (o : object) : bool :=
  match o with
  | ORequest r => req_bodyUsed r
  | OResponse p => resp_bodyUsed p
  end.

(** The reference to the object [o] when it is at [l] in the store. *)
Definition reference (o : object) (l : loc) : jsval :=
  match o with
  | ORequest _ => VRequest l
  | OResponse _ => VResponse l
  end.

(** The place in the store that a value refers to, when it is a reference. *)
Definition locOf (v : jsval) : option loc :=
  match v with
  | VRequest l | VResponse l => Some l
  | _ => None
  end.

(** The object that a value refers to: a [Request] for a [VRequest], a
    [Response] for a [VResponse]. *)
Definition deref (σ : heap) (v : jsval) : option object :=
  match v with
  | VRequest l =>
      match σ !! l with
      | Some (ORequest r) => Some (ORequest r)
      | _ => None
      end
  | VResponse l =>
      match σ !! l with
      | Some (OResponse p) => Some (OResponse p)
      | _ => None
      end
  | _ => None
  end.

(** Reading the body of a request or of a response (as [fetch], [text()] or
    [json()] do): the object becomes used when it has a body. *)
Definition readBody (o : object) : object :=
  match o with
  | ORequest r =>
      match req_body r with
      | Some _ =>
          ORequest (mkRequest (req_url r) (req_method r) (req_mode r)
                      (req_body r) true)
      | None => o
      end
  | OResponse p =>
      match resp_body p with
      | Some _ => OResponse (mkResponse (resp_status p) (resp_body p) true)
      | None => o
      end
  end.

Definition consumeBody (l : loc) (σ : heap) : heap :=
  match σ !! l with
  | Some o => <[l := readBody o]> σ
  | None => σ
  end.

(** ** Events, plugins and the host *)

Inductive promise : Type :=
| Fulfilled (v : jsval)
| Rejected (reason : jsval).

(** The [event] argument: absent, an [Event] that is not a [FetchEvent], or a
    [FetchEvent] with its [preloadResponse] member ([None] when undefined). *)
Inductive Event : Type :=
| EventUndefined
| PlainEvent (id : nat)
| FetchEvent (id : nat) (preloadResponse : option promise).

(** The argument object of each hook. *)
Inductive hookArgs : Type :=
| RequestWillFetchArgs (request : jsval) (event : Event)
| FetchDidSucceedArgs (event : Event) (request response : jsval)
| FetchDidFailArgs (error : jsval) (event : Event)
    (originalRequest request : jsval).

Inductive outcome : Type :=
| Return (v : jsval)
| Throws (e : jsval).

Definition hook : Type := hookArgs → heap → outcome * heap.

Record Plugin : Type := mkPlugin {
  requestWillFetch : option hook;
  fetchDidSucceed : option hook;
  fetchDidFail : option hook;
}.

Notation FetchOptions := (list (string * string)).

(** Modelled from the spec: models/pluginEvents.ts is not among the sources;
    the hook names are those of the extension hook interface. *)
Module pluginEvents.
Definition FETCH_DID_FAIL : string := "fetchDidFail".
Definition FETCH_DID_SUCCEED : string := "fetchDidSucceed".
Definition REQUEST_WILL_FETCH : string := "requestWillFetch".
End pluginEvents.

(** [plugin[callbackName]] *)
Definition getProperty (callbackName : string) (plugin : Plugin) : option hook :=
  if String.eqb callbackName pluginEvents.REQUEST_WILL_FETCH
  then requestWillFetch plugin
  else if String.eqb callbackName pluginEvents.FETCH_DID_SUCCEED
  then fetchDidSucceed plugin
  else if String.eqb callbackName pluginEvents.FETCH_DID_FAIL
  then fetchDidFail plugin
  else None.

(** [callbackName in plugin] *)
Definition hasProperty (callbackName : string) (plugin : Plugin) : bool :=
  match getProperty callbackName plugin with
  | Some _ => true
  | None => false
  end.

(** Modelled from the spec: utils/pluginUtils.ts is not among the sources;
    [selectImplementing] filters the extensions, preserving order, to those
    whose capability set includes the hook name. *)
Module pluginUtils.
Definition filter (plugins : list Plugin) (callbackName : string)
  : list Plugin :=
  List.filter (hasProperty callbackName) plugins.
End pluginUtils.

Arguments pluginUtils.filter : simpl never.

(** ** The trace *)

(** The five places where [wrappedFetch] calls [clone()]. *)
Inductive cloneSite : Type :=
| OriginalSnapshot      (* originalRequest = request.clone() *)
| HookCopy              (* requestClone = request.clone() *)
| FilteredSnapshot      (* pluginFilteredRequest = request.clone() *)
| FailOriginalCopy      (* originalRequest!.clone() *)
| FailFilteredCopy.     (* pluginFilteredRequest.clone() *)

Inductive result (A : Type) : Type :=
| Ok (a : A)
| Threw (e : jsval).

Arguments Ok {A}.
Arguments Threw {A}.

(** One entry per call that leaves [wrappedFetch]. A hook call and a
    [fetch] call record the store as it was when the call was made. *)
Inductive action : Type :=
| EvClone (site : cloneSite) (src : jsval) (res : result jsval)
| EvCall (plugin : Plugin) (callbackName : string) (args : hookArgs)
    (σ : heap) (out : outcome)
| EvFetch (request : jsval) (init : option FetchOptions)
    (σ : heap) (out : outcome).

Notation trace := (list action).

(** ** The monad of one invocation: store, exceptions, trace *)

Definition M (A : Type) : Type := heap → result A * heap * trace.

Definition ret {A} (a : A) : M A := λ σ, (Ok a, σ, []).

Definition throw {A} (e : jsval) : M A := λ σ, (Threw e, σ, []).

Definition bind {A B} (m : M A) (k : A → M B) : M B := λ σ,
  match m σ with
  | (Ok a, σ1, t1) => let '(r, σ2, t2) := k a σ1 in (r, σ2, t1 ++ t2)
  | (Threw e, σ1, t1) => (Threw e, σ1, t1)
  end.

(** [try { m } catch (e) { handler e }] *)
Definition try_catch {A} (m : M A) (handler : jsval → M A) : M A := λ σ,
  match m σ with
  | (Ok a, σ1, t1) => (Ok a, σ1, t1)
  | (Threw e, σ1, t1) =>
      let '(r, σ2, t2) := handler e σ1 in (r, σ2, t1 ++ t2)
  end.

Notation "'let!' x ':=' m 'in' k" := (bind m (λ x, k))
  (at level 10, x name, m at level 100, k at level 200,
   format "'[v' 'let!'  x  ':='  m  'in' '/' k ']'").

Definition settle (o : outcome) : result jsval :=
  match o with
  | Return v => Ok v
  | Throws e => Threw e
  end.

(** ** Platform operations *)

Definition TypeError_not_a_request : jsval :=
  VTypeError "clone is not a function".
Definition TypeError_body_used : jsval :=
  VTypeError "Request body is already used".
Definition TypeError_not_a_function : jsval :=
  VTypeError "not a function".
Definition TypeError_invalid_url : jsval :=
  VTypeError "Invalid URL".

(** [new Request(url)] for a string. [href] is what the URL parser of the
    host makes of the string: [None] when it does not parse (or holds
    credentials), and the constructor throws a [TypeError]; otherwise the
    absolute URL of a fresh GET request without a body. *)
Definition newRequest (href : option string) : M jsval := λ σ,
  match href with
  | Some url =>
      (Ok (VRequest (length σ)),
       σ ++ [ORequest (mkRequest url "GET" "cors" None false)], [])
  | None => (Threw TypeError_invalid_url, σ, [])
  end.

(** [v.clone()]. [Request] and [Response] have the method: on an object
    whose body is unread it allocates a copy of the same class, on one whose
    body was used it throws. The other values of the model have no such
    method, and the call throws. *)
Definition clone (site : cloneSite) (v : jsval) : M jsval := λ σ,
  match deref σ v with
  | Some o =>
      if bodyUsed o
      then (Threw TypeError_body_used, σ,
            [EvClone site v (Threw TypeError_body_used)])
      else (Ok (reference o (length σ)), σ ++ [o],
            [EvClone site v (Ok (reference o (length σ)))])
  | None => (Threw TypeError_not_a_request, σ,
             [EvClone site v (Threw TypeError_not_a_request)])
  end.

(** The value of [v.mode] in the store [σ]: the mode of a [Request],
    [undefined] for a [Response] and for any other value that has members. *)
Definition modeOf (σ : heap) (v : jsval) : jsval :=
  match deref σ v with
  | Some (ORequest r) => VString (req_mode r)
  | _ => VUndefined
  end.

(** [v.mode]: reading a member of [undefined] or [null] throws. *)
Definition getMode (v : jsval) : M jsval := λ σ,
  match v with
  | VUndefined | VNull => (Threw (VTypeError "mode of undefined"), σ, [])
  | _ => (Ok (modeOf σ v), σ, [])
  end.

(** [mode === 'navigate'] *)
Definition isNavigate (mode : jsval) : bool :=
  match mode with
  | VString m => String.eqb m "navigate"
  | _ => false
  end.

(** [await p] *)
Definition await (p : promise) : M jsval :=
  match p with
  | Fulfilled v => ret v
  | Rejected e => throw e
  end.

(** [await pluginMethod.call(plugin, args)] *)
Definition invoke (plugin : Plugin) (callbackName : string)
    (pluginMethod : hook) (args : hookArgs) : M jsval := λ σ,
  let '(out, σ') := pluginMethod args σ in
  (settle out, σ', [EvCall plugin callbackName args σ out]).

(** The details object [{thrownError: err}]. *)
Definition detailsThrownError (err : jsval) : WorkboxErrorDetails jsval :=
  mkDetails None None None None None None None None None None
            (Some err) None None None.

Definition plugin_error_request_will_fetch : string :=
  "plugin-error-request-will-fetch".

(** ** Reading a trace *)

Create Rewrite HintDb proj.

Definition hookCall (callbackName : string) (a : action)
  : option (Plugin * hookArgs * heap * outcome) :=
  match a with
  | EvCall plugin n args σ out =>
      if String.eqb n callbackName then Some (plugin, args, σ, out) else None
  | _ => None
  end.

(** The calls of one hook, in program order. *)
Definition hookCalls (callbackName : string) (tr : trace)
  : list (Plugin * hookArgs * heap * outcome) :=
  omap (hookCall callbackName) tr.

Definition fetchCall (a : action)
  : option (jsval * option FetchOptions * heap * outcome) :=
  match a with
  | EvFetch request init σ out => Some (request, init, σ, out)
  | _ => None
  end.

(** The calls of the host [fetch], in program order. *)
Definition fetchCalls (tr : trace)
  : list (jsval * option FetchOptions * heap * outcome) :=
  omap fetchCall tr.

Definition cloneSite_eqb (a b : cloneSite) : bool :=
  match a, b with
  | OriginalSnapshot, OriginalSnapshot
  | HookCopy, HookCopy
  | FilteredSnapshot, FilteredSnapshot
  | FailOriginalCopy, FailOriginalCopy
  | FailFilteredCopy, FailFilteredCopy => true
  | _, _ => false
  end.

Definition cloneAt (site : cloneSite) (a : action)
  : option (jsval * result jsval) :=
  match a with
  | EvClone s src res =>
      if cloneSite_eqb s site then Some (src, res) else None
  | _ => None
  end.

(** The [clone()] calls made at one place of the source, in program order:
    what was cloned and what came of it. *)
Definition clonesAt (site : cloneSite) (tr : trace)
  : list (jsval * result jsval) :=
  omap (cloneAt site) tr.

(** What [clone()] throws on a value that is not a reference. *)
Definition clone_error_ok (src e : jsval) : Prop :=
  locOf src = None → e = TypeError_not_a_request.

Definition requestDuplication (a : action) : option (jsval * result jsval) :=
  match a with
  | EvClone HookCopy src res | EvClone FilteredSnapshot src res =>
      Some (src, res)
  | _ => None
  end.

(** The successive values of the variable [request]: it is cloned once
    before every [requestWillFetch] hook and once after the loop, and these
    are the values it had then, with what [clone()] made of them. *)
Definition requestDuplications (tr : trace) : list (jsval * result jsval) :=
  omap requestDuplication tr.

(** A duplication is sound when it succeeded on a reference, or threw what
    [clone()] throws. *)
Definition dup_sound (d : jsval * result jsval) : Prop :=
  match d.2 with
  | Ok _ => ∃ l, locOf d.1 = Some l
  | Threw e => clone_error_ok d.1 e
  end.

Definition call_plugin (c : Plugin * hookArgs * heap * outcome) : Plugin :=
  c.1.1.1.
Definition call_args (c : Plugin * hookArgs * heap * outcome) : hookArgs :=
  c.1.1.2.
Definition call_heap (c : Plugin * hookArgs * heap * outcome) : heap :=
  c.1.2.
Definition call_outcome (c : Plugin * hookArgs * heap * outcome) : outcome :=
  c.2.

(** [copy] is a duplicate of [src] in the store [σ]: another object, with
    the same contents, both still readable. *)
Definition duplicate_of (σ : heap) (src copy : jsval) : Prop :=
  ∃ l c o, src = reference o l ∧ copy = reference o c ∧ c ≠ l ∧
    σ !! l = Some o ∧ σ !! c = Some o ∧ bodyUsed o = false.

(** A [fetchDidFail] call that got [error], the event, a duplicate of
    [originalRequest] and a duplicate of [pluginFilteredRequest]. *)
Definition failure_call_ok (error : jsval) (event : Event)
    (originalRequest filtered : jsval)
    (c : Plugin * hookArgs * heap * outcome) : Prop :=
  ∃ o f, call_args c = FetchDidFailArgs error event o f ∧
    duplicate_of (call_heap c) originalRequest o ∧
    duplicate_of (call_heap c) filtered f.

(** The value of [request] after lines 47-49, when [new Request] did not
    throw. *)
Definition normalize (request : jsval) (σ : heap) : jsval :=
  match request with
  | VString _ => VRequest (length σ)
  | _ => request
  end.

(** ** The phases of an invocation *)

(** The place of an action in the source: the original snapshot (0), the
    [requestWillFetch] loop (1), the filtered snapshot (2), the transmission
    (3), the [fetchDidSucceed] loop (4), the failure loop (5). *)
Definition phase (a : action) : nat :=
  match a with
  | EvClone OriginalSnapshot _ _ => 0
  | EvClone HookCopy _ _ => 1
  | EvClone FilteredSnapshot _ _ => 2
  | EvClone FailOriginalCopy _ _ | EvClone FailFilteredCopy _ _ => 5
  | EvCall _ n _ _ _ =>
      if String.eqb n pluginEvents.REQUEST_WILL_FETCH then 1
      else if String.eqb n pluginEvents.FETCH_DID_SUCCEED then 4
      else 5
  | EvFetch _ _ _ _ => 3
  end.

(** No action comes before an action of an earlier phase. *)
Definition in_order (tr : trace) : Prop :=
  ∀ i j a b, (i < j)%nat → tr !! i = Some a → tr !! j = Some b →
    (phase a ≤ phase b)%nat.

(** The [event] member of the argument of a hook. *)
Definition args_event (args : hookArgs) : Event :=
  match args with
  | RequestWillFetchArgs _ event
  | FetchDidSucceedArgs event _ _
  | FetchDidFailArgs _ event _ _ => event
  end.

(** An action that ended with an exception. *)
Definition threw (a : action) : bool :=
  match a with
  | EvClone _ _ (Threw _)
  | EvCall _ _ _ _ (Throws _)
  | EvFetch _ _ _ (Throws _) => true
  | _ => false
  end.

(** Lines 54-63: whether [wrappedFetch] ends at the preload step, by
    returning the preloaded response or by the rejection of the promise. *)
Definition leavesAtPreload (event : Event) : bool :=
  match event with
  | FetchEvent _ (Some (Fulfilled v)) => truthy v
  | FetchEvent _ (Some (Rejected _)) => true
  | _ => false
  end.

(** ** Example plugins, requests and hosts *)

Definition exampleMessage : string → WorkboxErrorDetails jsval → string :=
  λ errorCode _, errorCode.

(** A URL parser that rejects the string "http://[" and takes any other
    string as it is. *)
Definition exampleParseURL : string → option string :=
  λ s, if String.eqb s "http://[" then None else Some s.

Definition response200 : Response := mkResponse 200 (Some "ok") false.
Definition response201 : Response := mkResponse 201 (Some "created") false.

(** A host whose [fetch] reads the body of what it is given and answers
    with a new response. *)
Definition networkOk : jsval → option FetchOptions → heap → outcome * heap :=
  λ request _ σ,
    let σ' := match locOf request with
              | Some l => consumeBody l σ
              | None => σ
              end in
    (Return (VResponse (length σ')), σ' ++ [OResponse response200]).

(** A host whose [fetch] rejects. *)
Definition networkDown : jsval → option FetchOptions → heap → outcome * heap :=
  λ request _ σ,
    (Throws (VError 1),
     match locOf request with Some l => consumeBody l σ | None => σ end).

Definition getRequest : Request := mkRequest "/x" "GET" "cors" None false.
Definition postRequest : Request :=
  mkRequest "/x" "POST" "cors" (Some "payload") false.
Definition navigateRequest : Request :=
  mkRequest "/page" "GET" "navigate" None false.

(** [requestWillFetch: () => new Request(url)] *)
Definition rewriteTo (url : string) : Plugin :=
  mkPlugin
    (Some (λ _ σ, (Return (VRequest (length σ)),
                   σ ++ [ORequest (mkRequest url "GET" "cors" None false)])))
    None None.

(** [requestWillFetch: () => new Response("created", {status: 201})], a
    hook that returns an object of the wrong class. *)
Definition returnsResponse : Plugin :=
  mkPlugin
    (Some (λ _ σ, (Return (VResponse (length σ)),
                   σ ++ [OResponse response201])))
    None None.

(** [requestWillFetch: () => { throw e3 }] *)
Definition throwingRequestWillFetch : Plugin :=
  mkPlugin (Some (λ _ σ, (Throws (VError 3), σ))) None None.

(** [requestWillFetch: () => {}] *)
Definition voidRequestWillFetch : Plugin :=
  mkPlugin (Some (λ _ σ, (Return VUndefined, σ))) None None.

(** [fetchDidSucceed: () => new Response("created", {status: 201})] *)
Definition replaceResponse : Plugin :=
  mkPlugin None
    (Some (λ _ σ, (Return (VResponse (length σ)),
                   σ ++ [OResponse response201])))
    None.

(** [fetchDidSucceed: () => {}] *)
Definition voidFetchDidSucceed : Plugin :=
  mkPlugin None (Some (λ _ σ, (Return VUndefined, σ))) None.

(** [fetchDidSucceed: async ({request}) => { await request.text(); throw e7 }] *)
Definition readThenThrow : Plugin :=
  mkPlugin None
    (Some (λ args σ,
       match args with
       | FetchDidSucceedArgs _ (VRequest l) _ =>
           (Throws (VError 7), consumeBody l σ)
       | _ => (Throws (VError 7), σ)
       end))
    None.

(** [fetchDidFail: () => {}] *)
Definition failLogger : Plugin :=
  mkPlugin None None (Some (λ _ σ, (Return VUndefined, σ))).

(** [fetchDidFail: () => { throw e9 }] *)
Definition throwingFetchDidFail : Plugin :=
  mkPlugin None None (Some (λ _ σ, (Throws (VError 9), σ))).

(** Pass-through of a void return, on a trace: a [requestWillFetch] hook
    that returns nothing leaves the current request as it was, so the next
    duplication reads the same value as the one before the hook. *)
Definition void_return_keeps_request (tr : trace) : Prop :=
  ∀ i c prev,
    hookCalls pluginEvents.REQUEST_WILL_FETCH tr !! i = Some c →
    call_outcome c = Return VUndefined →
    requestDuplications tr !! i = Some prev →
    ∃ res', requestDuplications tr !! (S i) = Some (prev.1, res').

(** The preload short-circuit as one that nothing comes before, on the
    result and the trace of a run with [event]: whenever the event is a
    [FetchEvent] whose [preloadResponse] resolves to a truthy value, the
    run returned that value and did nothing else. *)
Definition preload_is_returned_verbatim (event : Event)
    (res : result jsval) (tr : trace) : Prop :=
  ∀ id v, event = FetchEvent id (Some (Fulfilled v)) →
    truthy v = true → res = Ok v ∧ tr = [].

(** The replacement of a response as a lasting one, on a run: when a
    [fetchDidSucceed] hook returns a response, every later hook is given
    that response and [wrappedFetch] returns it. *)
Definition replacement_reaches_the_caller (res : result jsval) (tr : trace)
  : Prop :=
  ∀ i c v,
    hookCalls pluginEvents.FETCH_DID_SUCCEED tr !! i = Some c →
    call_outcome c = Return v →
    truthy v = true →
    (∀ j c', (i < j)%nat →
       hookCalls pluginEvents.FETCH_DID_SUCCEED tr !! j = Some c' →
       ∃ event rq, call_args c' = FetchDidSucceedArgs event rq v) ∧
    res = Ok v.

(** The options of the transmission as a matter of the HTTP method, on a
    trace: [indicates] tells which methods mean a navigation, and a request
    with such a method is sent without options, any other with
    [fetchOptions]. *)
Definition options_follow_the_method (indicates : string → bool)
    (fetchOptions : option FetchOptions) (tr : trace) : Prop :=
  ∀ rq init σ out r,
    In (EvFetch rq init σ out) tr →
    deref σ rq = Some (ORequest r) →
    init = (if indicates (req_method r) then None else fetchOptions).

(** ** WorkboxError.ts and fetchWrapper.ts *)

Section Host.

(** [messageGenerator] (models/messages/messageGenerator.ts, not among the
    sources), the host's [fetch] and the URL parser of the host, as
    [new Request(url)] uses it, are parameters. *)
Variable messageGenerator : string → WorkboxErrorDetails jsval → string.
Variable fetch : jsval → option FetchOptions → heap → outcome * heap.
Variable parseURL : string → option string.

(** [new WorkboxError(errorCode, details)] *)
Definition newWorkboxError (errorCode : string)
    (details : WorkboxErrorDetails jsval) : WorkboxError jsval :=
  let message := messageGenerator errorCode details in
  {| message := message; name := errorCode; details := details |}.

(** [await fetch(request, init)]; [init = None] is [fetch(request)]. *)
Definition callFetch (request : jsval) (init : option FetchOptions)
  : M jsval := λ σ,
  let '(out, σ') := fetch request init σ in
  (settle out, σ', [EvFetch request init σ out]).

(** Lines 54-63: the navigation-preload short-circuit. [Some r] when the
    function returns [r] there. *)
Definition preloadStep (event : Event) : M (option jsval) :=
  match event with
  | FetchEvent _ (Some preloadResponse) =>
      let! possiblePreloadResponse := await preloadResponse in
      if truthy possiblePreloadResponse
      then ret (Some possiblePreloadResponse)
      else ret None
  | _ => ret None
  end.

(** Lines 85-105: [for (let plugin of plugins)], the body of the first
    [try]. The value of [request] after the loop is returned. *)
Fixpoint requestWillFetchLoop (event : Event) (plugins : list Plugin)
    (request : jsval) : M jsval :=
  match plugins with
  | [] => ret request
  | plugin :: rest =>
      match getProperty pluginEvents.REQUEST_WILL_FETCH plugin with
      | Some pluginMethod =>
          let! requestClone := clone HookCopy request in
          let! request :=
            invoke plugin pluginEvents.REQUEST_WILL_FETCH pluginMethod
              (RequestWillFetchArgs requestClone event) in
          requestWillFetchLoop event rest request
      | None => requestWillFetchLoop event rest request
      end
  end.

(** Lines 133-154: the [fetchDidSucceed] loop and [return fetchResponse]. *)
Fixpoint fetchDidSucceedLoop (event : Event) (plugins : list Plugin)
    (pluginFilteredRequest fetchResponse : jsval) : M jsval :=
  match plugins with
  | [] => ret fetchResponse
  | plugin :: rest =>
      match getProperty pluginEvents.FETCH_DID_SUCCEED plugin with
      | Some pluginMethod =>
          let! fetchResponse :=
            invoke plugin pluginEvents.FETCH_DID_SUCCEED pluginMethod
              (FetchDidSucceedArgs event pluginFilteredRequest
                 fetchResponse) in
          fetchDidSucceedLoop event rest pluginFilteredRequest fetchResponse
      | None =>
          fetchDidSucceedLoop event rest pluginFilteredRequest fetchResponse
      end
  end.

(** Lines 161-168: [for (const plugin of failedFetchPlugins)]. The callee
    [plugin[FETCH_DID_FAIL].call] is evaluated before the arguments. *)
Fixpoint fetchDidFailLoop (error : jsval) (event : Event)
    (failedFetchPlugins : list Plugin)
    (originalRequest pluginFilteredRequest : jsval) : M unit :=
  match failedFetchPlugins with
  | [] => ret tt
  | plugin :: rest =>
      match getProperty pluginEvents.FETCH_DID_FAIL plugin with
      | Some pluginMethod =>
          let! originalCopy := clone FailOriginalCopy originalRequest in
          let! filteredCopy :=
            clone FailFilteredCopy pluginFilteredRequest in
          let! _ :=
            invoke plugin pluginEvents.FETCH_DID_FAIL pluginMethod
              (FetchDidFailArgs error event originalCopy filteredCopy) in
          fetchDidFailLoop error event rest originalRequest
            pluginFilteredRequest
      | None => throw TypeError_not_a_function
      end
  end.

(** Lines 75-171: what [wrappedFetch] does once the preload short-circuit
    has not returned. *)
Definition pipeline (request : jsval) (fetchOptions : option FetchOptions)
    (event : Event) (plugins : list Plugin) : M jsval :=
  let failedFetchPlugins :=
    pluginUtils.filter plugins pluginEvents.FETCH_DID_FAIL in
  let! originalRequest :=
    (if Nat.ltb 0 (length failedFetchPlugins)
     then clone OriginalSnapshot request
     else ret VNull) in
  let! request :=
    try_catch (requestWillFetchLoop event plugins request)
      (λ err, throw (VWorkboxError
         (newWorkboxError plugin_error_request_will_fetch
            (detailsThrownError err)))) in
  let! pluginFilteredRequest := clone FilteredSnapshot request in
  try_catch
    (let! mode := getMode request in
     let! fetchResponse :=
       (if isNavigate mode
        then callFetch request None
        else callFetch request fetchOptions) in
     fetchDidSucceedLoop event plugins pluginFilteredRequest fetchResponse)
    (λ error,
     let! _ := fetchDidFailLoop error event failedFetchPlugins
                 originalRequest pluginFilteredRequest in
     throw error).

Definition wrappedFetch (request : jsval)
    (fetchOptions : option FetchOptions) (event : Event)
    (plugins : list Plugin) : M jsval :=
  let! request :=
    (match request with
     | VString s => newRequest (parseURL s)
     | _ => ret request
     end) in
  let! preloaded := preloadStep event in
  match preloaded with
  | Some possiblePreloadResponse => ret possiblePreloadResponse
  | None => pipeline request fetchOptions event plugins
  end.

(** ** The shape of a run

    The three loops and the pipeline, as relations between the plugins
    that implement the hook, the trace and the result. Each function is
    shown below to satisfy its relation; the properties of [wrappedFetch]
    are then read off the relations. *)

Inductive rwf_run (event : Event)
  : list Plugin → jsval → trace → result jsval → Prop :=
| rwf_done request :
    rwf_run event [] request [] (Ok request)
| rwf_clone_throws plugin rest request e :
    clone_error_ok request e →
    rwf_run event (plugin :: rest) request
      [EvClone HookCopy request (Threw e)] (Threw e)
| rwf_hook_throws plugin rest request copy σ e :
    duplicate_of σ request copy →
    rwf_run event (plugin :: rest) request
      [EvClone HookCopy request (Ok copy);
       EvCall plugin pluginEvents.REQUEST_WILL_FETCH
         (RequestWillFetchArgs copy event) σ (Throws e)]
      (Threw e)
| rwf_hook_returns plugin rest request copy σ v tr res :
    duplicate_of σ request copy →
    rwf_run event rest v tr res →
    rwf_run event (plugin :: rest) request
      (EvClone HookCopy request (Ok copy)
       :: EvCall plugin pluginEvents.REQUEST_WILL_FETCH
            (RequestWillFetchArgs copy event) σ (Return v)
       :: tr)
      res.

Inductive fds_run (event : Event) (pluginFilteredRequest : jsval)
  : list Plugin → jsval → trace → result jsval → Prop :=
| fds_done fetchResponse :
    fds_run event pluginFilteredRequest [] fetchResponse []
      (Ok fetchResponse)
| fds_hook_throws plugin rest fetchResponse σ e :
    fds_run event pluginFilteredRequest (plugin :: rest) fetchResponse
      [EvCall plugin pluginEvents.FETCH_DID_SUCCEED
         (FetchDidSucceedArgs event pluginFilteredRequest fetchResponse)
         σ (Throws e)]
      (Threw e)
| fds_hook_returns plugin rest fetchResponse σ v tr res :
    fds_run event pluginFilteredRequest rest v tr res →
    fds_run event pluginFilteredRequest (plugin :: rest) fetchResponse
      (EvCall plugin pluginEvents.FETCH_DID_SUCCEED
         (FetchDidSucceedArgs event pluginFilteredRequest fetchResponse)
         σ (Return v)
       :: tr)
      res.

Inductive fdf_run (error : jsval) (event : Event)
    (originalRequest pluginFilteredRequest : jsval)
  : list Plugin → trace → result unit → Prop :=
| fdf_done :
    fdf_run error event originalRequest pluginFilteredRequest [] []
      (Ok tt)
| fdf_original_clone_throws plugin rest e :
    fdf_run error event originalRequest pluginFilteredRequest
      (plugin :: rest)
      [EvClone FailOriginalCopy originalRequest (Threw e)] (Threw e)
| fdf_filtered_clone_throws plugin rest o e :
    fdf_run error event originalRequest pluginFilteredRequest
      (plugin :: rest)
      [EvClone FailOriginalCopy originalRequest (Ok o);
       EvClone FailFilteredCopy pluginFilteredRequest (Threw e)]
      (Threw e)
| fdf_hook_throws plugin rest o f σ x :
    duplicate_of σ originalRequest o →
    duplicate_of σ pluginFilteredRequest f →
    fdf_run error event originalRequest pluginFilteredRequest
      (plugin :: rest)
      [EvClone FailOriginalCopy originalRequest (Ok o);
       EvClone FailFilteredCopy pluginFilteredRequest (Ok f);
       EvCall plugin pluginEvents.FETCH_DID_FAIL
         (FetchDidFailArgs error event o f) σ (Throws x)]
      (Threw x)
| fdf_hook_returns plugin rest o f σ v tr res :
    duplicate_of σ originalRequest o →
    duplicate_of σ pluginFilteredRequest f →
    fdf_run error event originalRequest pluginFilteredRequest rest tr res →
    fdf_run error event originalRequest pluginFilteredRequest
      (plugin :: rest)
      (EvClone FailOriginalCopy originalRequest (Ok o)
       :: EvClone FailFilteredCopy pluginFilteredRequest (Ok f)
       :: EvCall plugin pluginEvents.FETCH_DID_FAIL
            (FetchDidFailArgs error event o f) σ (Return v)
       :: tr)
      res.

(** Lines 81-82: the holder [originalRequest] and what taking it logs. *)
Definition original_snapshot (plugins : list Plugin)
    (request originalRequest : jsval) (t0 : trace) : Prop :=
  (pluginUtils.filter plugins pluginEvents.FETCH_DID_FAIL = [] ∧
   originalRequest = VNull ∧ t0 = []) ∨
  (pluginUtils.filter plugins pluginEvents.FETCH_DID_FAIL ≠ [] ∧
   (∃ l, locOf originalRequest = Some l) ∧
   t0 = [EvClone OriginalSnapshot request (Ok originalRequest)]).

(** Lines 115-125: the request and the options the host [fetch] gets, in
    the store [σ] of the call: the request has just been cloned into
    [filtered], and the options depend on its [mode]. *)
Definition sent (fetchOptions : option FetchOptions) (σ : heap)
    (request filtered : jsval) (init : option FetchOptions) : Prop :=
  duplicate_of σ request filtered ∧
  init = (if isNavigate (modeOf σ request) then None else fetchOptions).

(** The body of the second [try] throws [error]: the transmission does,
    or a [fetchDidSucceed] hook does. *)
Inductive attempt_throws (fetchOptions : option FetchOptions)
    (event : Event) (plugins : list Plugin)
    (request pluginFilteredRequest error : jsval) : trace → Prop :=
| fetch_throws init σ :
    sent fetchOptions σ request pluginFilteredRequest init →
    attempt_throws fetchOptions event plugins request
      pluginFilteredRequest error
      [EvFetch request init σ (Throws error)]
| success_hook_throws init σ fetchResponse t :
    sent fetchOptions σ request pluginFilteredRequest init →
    fds_run event pluginFilteredRequest
      (pluginUtils.filter plugins pluginEvents.FETCH_DID_SUCCEED)
      fetchResponse t (Threw error) →
    attempt_throws fetchOptions event plugins request
      pluginFilteredRequest error
      (EvFetch request init σ (Return fetchResponse) :: t).

Definition rethrow (error : jsval) (r : result unit) : result jsval :=
  match r with
  | Ok _ => Threw error
  | Threw x => Threw x
  end.

Inductive pipeline_run (fetchOptions : option FetchOptions)
    (event : Event) (plugins : list Plugin) (request : jsval)
  : trace → result jsval → Prop :=
| run_original_clone_throws e :
    pluginUtils.filter plugins pluginEvents.FETCH_DID_FAIL ≠ [] →
    pipeline_run fetchOptions event plugins request
      [EvClone OriginalSnapshot request (Threw e)] (Threw e)
| run_requestWillFetch_throws originalRequest t0 t1 e :
    original_snapshot plugins request originalRequest t0 →
    rwf_run event
      (pluginUtils.filter plugins pluginEvents.REQUEST_WILL_FETCH)
      request t1 (Threw e) →
    pipeline_run fetchOptions event plugins request (t0 ++ t1)
      (Threw (VWorkboxError
         (newWorkboxError plugin_error_request_will_fetch
            (detailsThrownError e))))
| run_filtered_clone_throws originalRequest t0 t1 request' e :
    original_snapshot plugins request originalRequest t0 →
    rwf_run event
      (pluginUtils.filter plugins pluginEvents.REQUEST_WILL_FETCH)
      request t1 (Ok request') →
    clone_error_ok request' e →
    pipeline_run fetchOptions event plugins request
      (t0 ++ t1 ++ [EvClone FilteredSnapshot request' (Threw e)])
      (Threw e)
| run_success originalRequest t0 t1 request' filtered init σ
    fetchResponse t2 v :
    original_snapshot plugins request originalRequest t0 →
    rwf_run event
      (pluginUtils.filter plugins pluginEvents.REQUEST_WILL_FETCH)
      request t1 (Ok request') →
    sent fetchOptions σ request' filtered init →
    fds_run event filtered
      (pluginUtils.filter plugins pluginEvents.FETCH_DID_SUCCEED)
      fetchResponse t2 (Ok v) →
    pipeline_run fetchOptions event plugins request
      (t0 ++ t1 ++ EvClone FilteredSnapshot request' (Ok filtered)
         :: EvFetch request' init σ (Return fetchResponse) :: t2)
      (Ok v)
| run_failure originalRequest t0 t1 request' filtered error t2 t3 r :
    original_snapshot plugins request originalRequest t0 →
    rwf_run event
      (pluginUtils.filter plugins pluginEvents.REQUEST_WILL_FETCH)
      request t1 (Ok request') →
    attempt_throws fetchOptions event plugins request' filtered error t2 →
    fdf_run error event originalRequest filtered
      (pluginUtils.filter plugins pluginEvents.FETCH_DID_FAIL) t3 r →
    pipeline_run fetchOptions event plugins request
      (t0 ++ t1 ++ EvClone FilteredSnapshot request' (Ok filtered)
         :: t2 ++ t3)
      (rethrow error r).

(** ** The functions satisfy the relations *)

Lemma duplicate_of_app σ σ2 src copy :
  duplicate_of σ src copy → duplicate_of (σ ++ σ2) src copy.
Proof.
  intros (l & c & o & -> & -> & Hne & Hl & Hc & Hu).
  exists l, c, o. repeat split; auto using lookup_app_l_Some.
Qed.

Lemma deref_Some σ v o :
  deref σ v = Some o → ∃ l, v = reference o l ∧ σ !! l = Some o.
Proof.
  destruct v as [| |s|l|l|id|why|e]; simpl; try done.
  - destruct (σ !! l) as [[r|p]|] eqn:Hl; try done.
    intros [= <-]. eauto.
  - destruct (σ !! l) as [[r|p]|] eqn:Hl; try done.
    intros [= <-]. eauto.
Qed.

Lemma deref_reference σ o l :
  σ !! l = Some o → deref σ (reference o l) = Some o.
Proof. intros Hl. destruct o; simpl; by rewrite Hl. Qed.

Lemma deref_None σ v : locOf v = None → deref σ v = None.
Proof. by destruct v. Qed.

Lemma locOf_reference o l : locOf (reference o l) = Some l.
Proof. by destruct o. Qed.

Lemma deref_app σ σ2 v o :
  deref σ v = Some o → deref (σ ++ σ2) v = Some o.
Proof.
  intros (l & -> & Hl)%deref_Some.
  apply deref_reference. by apply lookup_app_l_Some.
Qed.

Lemma clone_spec site v σ :
  (∃ l o, v = reference o l ∧ σ !! l = Some o ∧ bodyUsed o = false ∧
     clone site v σ =
       (Ok (reference o (length σ)), σ ++ [o],
        [EvClone site v (Ok (reference o (length σ)))]) ∧
     duplicate_of (σ ++ [o]) v (reference o (length σ))) ∨
  (∃ e, clone site v σ = (Threw e, σ, [EvClone site v (Threw e)]) ∧
     clone_error_ok v e).
Proof.
  unfold clone. destruct (deref σ v) as [o|] eqn:Hd.
  - destruct (deref_Some _ _ _ Hd) as (l & -> & Hl).
    destruct (bodyUsed o) eqn:Hu.
    + right. exists TypeError_body_used. split; [reflexivity|].
      intros H. by rewrite locOf_reference in H.
    + left. exists l, o. repeat split; auto.
      exists l, (length σ), o. repeat split; auto.
      * apply lookup_lt_Some in Hl. lia.
      * by apply lookup_app_l_Some.
      * rewrite lookup_app_r by lia. by rewrite Nat.sub_diag.
  - right. exists TypeError_not_a_request. split; [reflexivity|done].
Qed.

Lemma filter_cons_has callbackName plugin rest f :
  getProperty callbackName plugin = Some f →
  pluginUtils.filter (plugin :: rest) callbackName =
  plugin :: pluginUtils.filter rest callbackName.
Proof.
  intros H. unfold pluginUtils.filter, hasProperty. simpl. by rewrite H.
Qed.

Lemma filter_cons_hasnt callbackName plugin rest :
  getProperty callbackName plugin = None →
  pluginUtils.filter (plugin :: rest) callbackName =
  pluginUtils.filter rest callbackName.
Proof.
  intros H. unfold pluginUtils.filter, hasProperty. simpl. by rewrite H.
Qed.

Lemma requestWillFetchLoop_run event plugins request σ res σ' tr :
  requestWillFetchLoop event plugins request σ = (res, σ', tr) →
  rwf_run event
    (pluginUtils.filter plugins pluginEvents.REQUEST_WILL_FETCH)
    request tr res.
Proof.
  revert request σ res σ' tr.
  induction plugins as [|plugin rest IH]; intros request σ res σ' tr H;
    simpl in H.
  { inversion H. constructor. }
  destruct (getProperty _ plugin) as [pluginMethod|] eqn:Hp.
  2: { rewrite (filter_cons_hasnt _ _ _ Hp). eauto. }
  rewrite (filter_cons_has _ _ _ _ Hp). unfold bind in H.
  destruct (clone_spec HookCopy request σ)
    as [(l & r & -> & Hl & Hu & Hc & Hdup)|(e & Hc & He)];
    rewrite Hc in H.
  2: { inversion H. by constructor. }
  unfold invoke in H.
  destruct (pluginMethod _ _) as [[v|e] σ1]; simpl in H.
  - destruct (requestWillFetchLoop event rest v σ1)
      as [[res1 σ2] tr1] eqn:Hrec.
    apply IH in Hrec. inversion H; subst. by constructor.
  - inversion H. by constructor.
Qed.

Lemma fetchDidSucceedLoop_run event plugins filtered fetchResponse σ
    res σ' tr :
  fetchDidSucceedLoop event plugins filtered fetchResponse σ
    = (res, σ', tr) →
  fds_run event filtered
    (pluginUtils.filter plugins pluginEvents.FETCH_DID_SUCCEED)
    fetchResponse tr res.
Proof.
  revert fetchResponse σ res σ' tr.
  induction plugins as [|plugin rest IH];
    intros fetchResponse σ res σ' tr H; simpl in H.
  { inversion H. constructor. }
  destruct (getProperty _ plugin) as [pluginMethod|] eqn:Hp.
  2: { rewrite (filter_cons_hasnt _ _ _ Hp). eauto. }
  rewrite (filter_cons_has _ _ _ _ Hp). unfold bind, invoke in H.
  destruct (pluginMethod _ _) as [[v|e] σ1]; simpl in H.
  - destruct (fetchDidSucceedLoop event rest filtered v σ1)
      as [[res1 σ2] tr1] eqn:Hrec.
    apply IH in Hrec. inversion H; subst. by constructor.
  - inversion H. constructor.
Qed.

Lemma fetchDidFailLoop_run error event failed originalRequest filtered σ
    res σ' tr :
  Forall (λ p, hasProperty pluginEvents.FETCH_DID_FAIL p = true) failed →
  fetchDidFailLoop error event failed originalRequest filtered σ
    = (res, σ', tr) →
  fdf_run error event originalRequest filtered failed tr res.
Proof.
  intros Hall. revert σ res σ' tr.
  induction Hall as [|plugin rest Hp _ IH]; intros σ res σ' tr H;
    simpl in H.
  { inversion H. constructor. }
  unfold hasProperty in Hp.
  destruct (getProperty _ plugin) as [pluginMethod|]; [clear Hp|done].
  unfold bind in H.
  destruct (clone_spec FailOriginalCopy originalRequest σ)
    as [(l & r & -> & Hl & Hu & Hc & Hdup)|(e & Hc & He)];
    rewrite Hc in H.
  2: { inversion H. constructor. }
  destruct (clone_spec FailFilteredCopy filtered (σ ++ [r]))
    as [(l' & r' & -> & Hl' & Hu' & Hc' & Hdup')|(e & Hc' & He)];
    rewrite Hc' in H.
  2: { inversion H. constructor. }
  apply (duplicate_of_app _ [r']) in Hdup.
  unfold invoke in H.
  destruct (pluginMethod _ _) as [[v|e] σ1]; simpl in H.
  - destruct (fetchDidFailLoop error event rest (reference r l)
                (reference r' l') σ1) as [[res1 σ2] tr1] eqn:Hrec.
    apply IH in Hrec. inversion H; subst. by constructor.
  - inversion H. by constructor.
Qed.

Lemma filter_all_have plugins callbackName :
  Forall (λ p, hasProperty callbackName p = true)
    (pluginUtils.filter plugins callbackName).
Proof.
  unfold pluginUtils.filter.
  induction plugins as [|p ps IH]; simpl; [constructor|].
  destruct (hasProperty callbackName p) eqn:Hp; auto.
Qed.

Lemma pipeline_spec request fetchOptions event plugins σ res σ' tr :
  pipeline request fetchOptions event plugins σ = (res, σ', tr) →
  pipeline_run fetchOptions event plugins request tr res.
Proof.
  unfold pipeline. intros H. unfold bind at 1 in H.
  set (failed := pluginUtils.filter plugins pluginEvents.FETCH_DID_FAIL)
    in *.
  assert (∃ originalRequest σ0 t0,
    (∃ e, res = Threw e ∧
       tr = [EvClone OriginalSnapshot request (Threw e)] ∧ failed ≠ []) ∨
    (original_snapshot plugins request originalRequest t0 ∧
     ∃ t,
     tr = t0 ++ t ∧
     (let! request :=
        try_catch (requestWillFetchLoop event plugins request)
          (λ err, throw (VWorkboxError
             (newWorkboxError plugin_error_request_will_fetch
                (detailsThrownError err)))) in
      let! pluginFilteredRequest := clone FilteredSnapshot request in
      try_catch
        (let! mode := getMode request in
         let! fetchResponse :=
           (if isNavigate mode
            then callFetch request None
            else callFetch request fetchOptions) in
         fetchDidSucceedLoop event plugins pluginFilteredRequest
           fetchResponse)
        (λ error,
         let! _ := fetchDidFailLoop error event failed
                     originalRequest pluginFilteredRequest in
         throw error)) σ0 = (res, σ', t))) as (orig & σ0 & t0 & Hstart).
  { destruct failed as [|p ps] eqn:Hf; simpl in H.
    - exists VNull, σ, []. right. split; [left; by fold failed|].
      destruct (bind _ _ σ) as [[r1 s1] t1]. inversion H; subst. eauto.
    - destruct (clone_spec OriginalSnapshot request σ)
        as [(l & r & -> & Hl & Hu & Hc & Hdup)|(e & Hc & He)];
        rewrite Hc in H.
      + exists (reference r (length σ)), (σ ++ [r]),
          [EvClone OriginalSnapshot (reference r l)
             (Ok (reference r (length σ)))].
        right. split.
        { right. fold failed. rewrite Hf. repeat split; auto.
          exists (length σ). apply locOf_reference. }
        destruct (bind _ _ (σ ++ [r])) as [[r1 s1] t1].
        inversion H; subst. eauto.
      + exists VNull, σ, []. left. inversion H; subst.
        exists e. repeat split; auto. }
  clear H. destruct Hstart as [(e & -> & -> & Hne)|(Horig & t & -> & H)].
  { by constructor. }
  unfold bind at 1, try_catch at 1 in H.
  destruct (requestWillFetchLoop event plugins request σ0)
    as [[[request'|e] σ1] t1] eqn:Hloop;
    apply requestWillFetchLoop_run in Hloop.
  2: { simpl in H. inversion H; subst. rewrite app_nil_r.
       by econstructor. }
  unfold bind at 1 in H.
  destruct (clone_spec FilteredSnapshot request' σ1)
    as [(l & r & -> & Hl & Hu & Hc & Hdup)|(e & Hc & He)];
    rewrite Hc in H.
  2: { inversion H; subst. by econstructor. }
  unfold try_catch at 1, bind at 1 in H.
  assert (Hmode : getMode (reference r l) (σ1 ++ [r])
                  = (Ok (modeOf (σ1 ++ [r]) (reference r l)), σ1 ++ [r], [])).
  { by destruct r. }
  rewrite Hmode in H. clear Hmode.
  unfold bind at 1 in H.
  set (init := if isNavigate (modeOf (σ1 ++ [r]) (reference r l))
               then None else fetchOptions) in *.
  assert (Hf : (if isNavigate (modeOf (σ1 ++ [r]) (reference r l))
                then callFetch (reference r l) None
                else callFetch (reference r l) fetchOptions)
               = callFetch (reference r l) init).
  { unfold init. by destruct (isNavigate _). }
  rewrite Hf in H. clear Hf. unfold callFetch at 1 in H.
  assert (Hsent : sent fetchOptions (σ1 ++ [r]) (reference r l)
                    (reference r (length σ1)) init).
  { by split. }
  destruct (fetch (reference r l) init (σ1 ++ [r])) as [[resp|E] σ2];
    simpl in H.
  - destruct (fetchDidSucceedLoop event plugins (reference r (length σ1))
                resp σ2) as [[[v|E] σ3] t2] eqn:Hfds;
      apply fetchDidSucceedLoop_run in Hfds.
    + inversion H; subst. simpl. by econstructor.
    + unfold bind at 1 in H.
      destruct (fetchDidFailLoop E event failed orig
                  (reference r (length σ1)) σ3) as [[r3 σ4] t3] eqn:Hfdf.
      apply fetchDidFailLoop_run in Hfdf; [|apply filter_all_have].
      assert (Hatt : attempt_throws fetchOptions event plugins
        (reference r l) (reference r (length σ1)) E
        (EvFetch (reference r l) init (σ1 ++ [r]) (Return resp) :: t2))
        by (by econstructor).
      pose proof (run_failure fetchOptions event plugins request orig
        t0 t1 (reference r l) (reference r (length σ1)) E _ t3 r3
        Horig Hloop Hatt Hfdf) as Hrun.
      destruct r3 as [[]|x]; simpl in H; inversion H; subst;
        simpl in *; by rewrite ?app_nil_r.
  - unfold bind at 1 in H.
    destruct (fetchDidFailLoop E event failed orig
                (reference r (length σ1)) σ2) as [[r3 σ4] t3] eqn:Hfdf.
    apply fetchDidFailLoop_run in Hfdf; [|apply filter_all_have].
    assert (Hatt : attempt_throws fetchOptions event plugins
      (reference r l) (reference r (length σ1)) E
      [EvFetch (reference r l) init (σ1 ++ [r]) (Throws E)])
      by (by constructor).
    pose proof (run_failure fetchOptions event plugins request orig
      t0 t1 (reference r l) (reference r (length σ1)) E _ t3 r3
      Horig Hloop Hatt Hfdf) as Hrun.
    destruct r3 as [[]|x]; simpl in H; inversion H; subst;
      simpl in *; by rewrite ?app_nil_r.
Qed.

Lemma wrappedFetch_cases request fetchOptions event plugins σ res σ' tr :
  wrappedFetch request fetchOptions event plugins σ = (res, σ', tr) →
  (∃ id v, event = FetchEvent id (Some (Fulfilled v)) ∧
     truthy v = true ∧ res = Ok v ∧ tr = []) ∨
  (∃ id e, event = FetchEvent id (Some (Rejected e)) ∧
     res = Threw e ∧ tr = []) ∨
  (∃ s, request = VString s ∧ parseURL s = None ∧
     res = Threw TypeError_invalid_url ∧ tr = []) ∨
  pipeline_run fetchOptions event plugins (normalize request σ) tr res.
Proof.
  unfold wrappedFetch. intros H. unfold bind at 1 in H.
  assert ((∃ s, request = VString s ∧ parseURL s = None ∧
             res = Threw TypeError_invalid_url ∧ tr = []) ∨
          ∃ σ0, (let! preloaded := preloadStep event in
                 match preloaded with
                 | Some possiblePreloadResponse =>
                     ret possiblePreloadResponse
                 | None =>
                     pipeline (normalize request σ) fetchOptions event
                       plugins
                 end) σ0 = (res, σ', tr)) as [Hbad|[σ0 H0]].
  { destruct request as [| |s|l|l|n|why|e]; simpl in H.
    3: destruct (parseURL s) as [url|] eqn:Hurl; simpl in H;
         [|left; inversion H; subst; by exists s].
    all: right.
    all: match type of H with
         | context [bind _ _ ?s] => exists s
         end.
    all: destruct (bind _ _ _) as [[r1 s1] t1].
    all: exact H. }
  { auto. }
  clear H. unfold bind at 1 in H0.
  destruct event as [|id|id [[v|e]|]];
    cbv [preloadStep await bind ret throw] in H0;
    try (right; right; right;
         destruct (pipeline _ _ _ _ σ0) as [[r1 s1] t1] eqn:Hp;
         apply pipeline_spec in Hp; by inversion H0; subst).
  - destruct (truthy v) eqn:Hv.
    + left. exists id, v. inversion H0; subst. repeat split; auto.
    + right; right; right.
      destruct (pipeline _ _ _ _ σ0) as [[r1 s1] t1] eqn:Hp.
      apply pipeline_spec in Hp. by inversion H0; subst.
  - right; left. exists id, e. inversion H0; subst. repeat split; auto.
Qed.

(** ** Reading the relations *)

Lemma hookCalls_app n t1 t2 :
  hookCalls n (t1 ++ t2) = hookCalls n t1 ++ hookCalls n t2.
Proof. apply omap_app. Qed.

Lemma fetchCalls_app t1 t2 :
  fetchCalls (t1 ++ t2) = fetchCalls t1 ++ fetchCalls t2.
Proof. apply omap_app. Qed.

Lemma clonesAt_app site t1 t2 :
  clonesAt site (t1 ++ t2) = clonesAt site t1 ++ clonesAt site t2.
Proof. apply omap_app. Qed.

Lemma In_hookCalls plugin n args σ out tr :
  In (EvCall plugin n args σ out) tr ↔
  In (plugin, args, σ, out) (hookCalls n tr).
Proof.
  induction tr as [|a tr IH]; simpl; [done|].
  unfold hookCalls in *. simpl.
  destruct a as [site src res|p m a0 s0 o0|rq i s0 o0]; simpl.
  - rewrite <- IH. split; [intros [?|?]|]; auto; done.
  - destruct (String.eqb m n) eqn:Hm; simpl.
    + apply String.eqb_eq in Hm as ->. rewrite <- IH.
      split; (intros [Heq|?]; [left; by inversion Heq|by right]).
    + rewrite <- IH. split; [intros [Heq|?]|]; auto.
      inversion Heq; subst. by rewrite String.eqb_refl in Hm.
  - rewrite <- IH. split; [intros [?|?]|]; auto; done.
Qed.

Lemma In_fetchCalls request init σ out tr :
  In (EvFetch request init σ out) tr ↔
  In (request, init, σ, out) (fetchCalls tr).
Proof.
  induction tr as [|a tr IH]; simpl; [done|].
  unfold fetchCalls in *. simpl.
  destruct a as [site src res|p m a0 s0 o0|rq i s0 o0]; simpl.
  - rewrite <- IH. split; [intros [?|?]|]; auto; done.
  - rewrite <- IH. split; [intros [?|?]|]; auto; done.
  - rewrite <- IH.
    split; (intros [Heq|?]; [left; by inversion Heq|by right]).
Qed.

Lemma rwf_run_others event ps request t res :
  rwf_run event ps request t res →
  fetchCalls t = [] ∧
  hookCalls pluginEvents.FETCH_DID_SUCCEED t = [] ∧
  hookCalls pluginEvents.FETCH_DID_FAIL t = [] ∧
  clonesAt OriginalSnapshot t = [] ∧
  clonesAt FilteredSnapshot t = [] ∧
  clonesAt FailOriginalCopy t = [] ∧
  clonesAt FailFilteredCopy t = [].
Proof. induction 1; repeat split; simpl; tauto. Qed.

Lemma fds_run_others event filtered ps resp t res :
  fds_run event filtered ps resp t res →
  fetchCalls t = [] ∧
  hookCalls pluginEvents.REQUEST_WILL_FETCH t = [] ∧
  hookCalls pluginEvents.FETCH_DID_FAIL t = [] ∧
  clonesAt OriginalSnapshot t = [] ∧
  clonesAt HookCopy t = [] ∧
  clonesAt FilteredSnapshot t = [] ∧
  clonesAt FailOriginalCopy t = [] ∧
  clonesAt FailFilteredCopy t = [].
Proof. induction 1; repeat split; simpl; tauto. Qed.

Lemma fdf_run_others error event orig filtered ps t res :
  fdf_run error event orig filtered ps t res →
  fetchCalls t = [] ∧
  hookCalls pluginEvents.REQUEST_WILL_FETCH t = [] ∧
  hookCalls pluginEvents.FETCH_DID_SUCCEED t = [] ∧
  clonesAt OriginalSnapshot t = [] ∧
  clonesAt HookCopy t = [] ∧
  clonesAt FilteredSnapshot t = [].
Proof. induction 1; repeat split; simpl; tauto. Qed.

Lemma original_snapshot_others plugins request orig t0 :
  original_snapshot plugins request orig t0 →
  fetchCalls t0 = [] ∧
  hookCalls pluginEvents.REQUEST_WILL_FETCH t0 = [] ∧
  hookCalls pluginEvents.FETCH_DID_SUCCEED t0 = [] ∧
  hookCalls pluginEvents.FETCH_DID_FAIL t0 = [] ∧
  clonesAt HookCopy t0 = [] ∧
  clonesAt FilteredSnapshot t0 = [] ∧
  clonesAt FailOriginalCopy t0 = [] ∧
  clonesAt FailFilteredCopy t0 = [].
Proof.
  intros [(_ & _ & ->)|(_ & _ & ->)]; repeat split; done.
Qed.

Lemma attempt_throws_others fetchOptions event plugins request filtered
    error t :
  attempt_throws fetchOptions event plugins request filtered error t →
  hookCalls pluginEvents.REQUEST_WILL_FETCH t = [] ∧
  hookCalls pluginEvents.FETCH_DID_FAIL t = [] ∧
  clonesAt OriginalSnapshot t = [] ∧
  clonesAt HookCopy t = [] ∧
  clonesAt FilteredSnapshot t = [] ∧
  clonesAt FailOriginalCopy t = [] ∧
  clonesAt FailFilteredCopy t = [].
Proof.
  destruct 1 as [init σ Hs|init σ resp t Hs Hfds]; [done|].
  apply fds_run_others in Hfds as (_ & ? & ? & ? & ? & ? & ? & ?).
  repeat split; simpl; auto.
Qed.

Lemma hookCalls_clone n site src res t :
  hookCalls n (EvClone site src res :: t) = hookCalls n t.
Proof. reflexivity. Qed.

Lemma hookCalls_fetch n request init σ out t :
  hookCalls n (EvFetch request init σ out :: t) = hookCalls n t.
Proof. reflexivity. Qed.

Lemma fetchCalls_clone site src res t :
  fetchCalls (EvClone site src res :: t) = fetchCalls t.
Proof. reflexivity. Qed.

Lemma fetchCalls_call plugin n args σ out t :
  fetchCalls (EvCall plugin n args σ out :: t) = fetchCalls t.
Proof. reflexivity. Qed.

Lemma fetchCalls_fetch request init σ out t :
  fetchCalls (EvFetch request init σ out :: t) =
  (request, init, σ, out) :: fetchCalls t.
Proof. reflexivity. Qed.

Lemma clonesAt_call site plugin n args σ out t :
  clonesAt site (EvCall plugin n args σ out :: t) = clonesAt site t.
Proof. reflexivity. Qed.

Lemma clonesAt_fetch site request init σ out t :
  clonesAt site (EvFetch request init σ out :: t) = clonesAt site t.
Proof. reflexivity. Qed.

Lemma clonesAt_other site s src res t :
  cloneSite_eqb s site = false →
  clonesAt site (EvClone s src res :: t) = clonesAt site t.
Proof. intros H. unfold clonesAt. simpl. by rewrite H. Qed.

Lemma clonesAt_same site src res t :
  clonesAt site (EvClone site src res :: t) = (src, res) :: clonesAt site t.
Proof. unfold clonesAt. simpl. by destruct site. Qed.

Lemma hookCalls_nil n : hookCalls n [] = [].
Proof. reflexivity. Qed.

Lemma fetchCalls_nil : fetchCalls [] = [].
Proof. reflexivity. Qed.

Lemma clonesAt_nil site : clonesAt site [] = [].
Proof. reflexivity. Qed.

#[local] Hint Rewrite hookCalls_app fetchCalls_app clonesAt_app hookCalls_clone
  hookCalls_fetch fetchCalls_clone fetchCalls_call fetchCalls_fetch
  clonesAt_call clonesAt_fetch hookCalls_nil fetchCalls_nil clonesAt_nil
  app_nil_r app_nil_l : proj.

(** Collect what each part of a run does not contain, and simplify the
    projections of the whole trace with it. *)
Ltac part_facts :=
  repeat match goal with
  | H : original_snapshot _ _ _ ?t |- _ =>
      lazymatch goal with
      | _ : fetchCalls t = [] |- _ => fail
      | _ => pose proof (original_snapshot_others _ _ _ _ H)
               as (? & ? & ? & ? & ? & ? & ? & ?)
      end
  | H : rwf_run _ _ _ ?t _ |- _ =>
      lazymatch goal with
      | _ : fetchCalls t = [] |- _ => fail
      | _ => pose proof (rwf_run_others _ _ _ _ _ H)
               as (? & ? & ? & ? & ? & ? & ?)
      end
  | H : fds_run _ _ _ _ ?t _ |- _ =>
      lazymatch goal with
      | _ : fetchCalls t = [] |- _ => fail
      | _ => pose proof (fds_run_others _ _ _ _ _ _ H)
               as (? & ? & ? & ? & ? & ? & ? & ?)
      end
  | H : fdf_run _ _ _ _ _ ?t _ |- _ =>
      lazymatch goal with
      | _ : fetchCalls t = [] |- _ => fail
      | _ => pose proof (fdf_run_others _ _ _ _ _ _ _ H)
               as (? & ? & ? & ? & ? & ?)
      end
  | H : attempt_throws _ _ _ _ _ _ ?t |- _ =>
      lazymatch goal with
      | _ : hookCalls pluginEvents.REQUEST_WILL_FETCH t = [] |- _ => fail
      | _ => pose proof (attempt_throws_others _ _ _ _ _ _ _ H)
               as (? & ? & ? & ? & ? & ? & ?)
      end
  end.

Ltac proj :=
  part_facts;
  repeat (autorewrite with proj in *;
          repeat match goal with
          | H : ?x = [] |- context [?x] => rewrite H
          | H : ?x = [], H' : context [?x] |- _ =>
              lazymatch type of H' with
              | x = [] => fail
              | _ => rewrite H in H'
              end
          end).

Ltac open_run H Hrun :=
  destruct (wrappedFetch_cases _ _ _ _ _ _ _ _ H)
    as [(? & ? & -> & ? & -> & ->)|[(? & ? & -> & -> & ->)
        |[(? & ? & ? & -> & ->)|Hrun]]].

(** A [requestWillFetch] hook that throws ends the loop with what it
    threw. *)
Lemma rwf_run_throw event ps request t res plugin args σ e :
  rwf_run event ps request t res →
  In (plugin, args, σ, Throws e)
     (hookCalls pluginEvents.REQUEST_WILL_FETCH t) →
  res = Threw e.
Proof.
  induction 1; simpl; intros Hin; try tauto.
  - destruct Hin as [Heq|[]]. by inversion Heq.
  - destruct Hin as [Heq|Hin]; [by inversion Heq|auto].
Qed.

(** ** The navigation-preload short-circuit *)

(** C4: when the request is a [Request] object, or a string from which
    [new Request] makes one, and the event is a [FetchEvent] whose
    [preloadResponse] resolves to a truthy response, that response is
    returned as it is and the trace is empty: no hook is called, [fetch] is
    not called, nothing is cloned. *)
Theorem preload_response_returned_verbatim request fetchOptions id v
    plugins σ :
  (∀ s, request = VString s → parseURL s ≠ None) →
  truthy v = true →
  ∃ σ',
    wrappedFetch request fetchOptions
      (FetchEvent id (Some (Fulfilled v))) plugins σ = (Ok v, σ', []).
Proof.
  intros Hurl Hv. unfold wrappedFetch.
  destruct request as [| |s|l|l|n|why|err];
    try (cbv [bind ret preloadStep await]; rewrite Hv; by eauto).
  destruct (parseURL s) as [url|] eqn:Hs; [|by destruct (Hurl s eq_refl)].
  cbv [bind ret newRequest preloadStep await]. rewrite Hv. eauto.
Qed.

(** ** The [requestWillFetch] chain *)

(** C3: when a [requestWillFetch] hook throws [E], [wrappedFetch] throws a
    [WorkboxError] whose code is "plugin-error-request-will-fetch" and
    whose details carry [E] as [thrownError]; the host [fetch] is not
    called and no [fetchDidFail] hook is called. *)
Theorem requestWillFetch_throw_is_wrapped request fetchOptions event
    plugins σ res σ' tr plugin args σh E :
  wrappedFetch request fetchOptions event plugins σ = (res, σ', tr) →
  In (EvCall plugin pluginEvents.REQUEST_WILL_FETCH args σh (Throws E))
     tr →
  (∃ err, res = Threw (VWorkboxError err) ∧
     name err = "plugin-error-request-will-fetch" ∧
     thrownError (details err) = Some E) ∧
  fetchCalls tr = [] ∧
  hookCalls pluginEvents.FETCH_DID_FAIL tr = [].
Proof.
  intros H Hin. apply In_hookCalls in Hin.
  open_run H Hrun; try done.
  inversion Hrun; subst; proj; try done.
  all: match goal with
       | Hr : rwf_run _ _ _ _ _ |- _ =>
           pose proof (rwf_run_throw _ _ _ _ _ _ _ _ _ Hr Hin) as Heq
       end; try discriminate.
  inversion Heq; subst. split; [|done]. eexists. by repeat split.
Qed.

(** ** The transmission *)

Lemma attempt_throws_fetch fetchOptions event plugins request filtered
    error t :
  attempt_throws fetchOptions event plugins request filtered error t →
  ∃ init σ out, sent fetchOptions σ request filtered init ∧
    fetchCalls t = [(request, init, σ, out)].
Proof.
  destruct 1 as [init σ Hs|init σ resp t Hs Hfds].
  - by exists init, σ, (Throws error).
  - exists init, σ, (Return resp). split; [done|].
    apply fds_run_others in Hfds as (Hf & _).
    by rewrite fetchCalls_fetch, Hf.
Qed.

(** C7: a call of the host [fetch] is the only one of the invocation; it
    gets the current request, the one whose snapshot was just taken; and
    when the [mode] of that request is "navigate" it gets no second
    argument, otherwise (also when the current value has no [mode], as a
    [Response] that a hook returned) it gets the [fetchOptions] of the
    caller as they are. *)
Theorem transmission_options request fetchOptions event plugins σ res σ'
    tr rq init σf out :
  wrappedFetch request fetchOptions event plugins σ = (res, σ', tr) →
  In (EvFetch rq init σf out) tr →
  fetchCalls tr = [(rq, init, σf, out)] ∧
  (∃ filtered, clonesAt FilteredSnapshot tr = [(rq, Ok filtered)] ∧
     duplicate_of σf rq filtered) ∧
  init = (if isNavigate (modeOf σf rq) then None else fetchOptions).
Proof.
  intros H Hin. apply In_fetchCalls in Hin.
  open_run H Hrun; try done.
  inversion Hrun; subst; proj; try done.
  - destruct Hin as [Heq|[]]. inversion Heq; subst.
    match goal with
    | Hs : sent _ _ _ _ _ |- _ => destruct Hs as [Hdup Hinit]
    end.
    split; [done|]. split; [|done].
    exists filtered. split; [|done]. proj.
    rewrite clonesAt_same. by proj.
  - match goal with
    | Ha : attempt_throws _ _ _ _ _ _ _ |- _ =>
        destruct (attempt_throws_fetch _ _ _ _ _ _ _ Ha)
          as (i0 & s0 & o0 & [Hdup Hinit] & Hcalls)
    end.
    rewrite Hcalls in Hin. destruct Hin as [Heq|[]].
    inversion Heq; subst.
    split; [done|]. split; [|done].
    exists filtered. split; [|done]. proj.
    rewrite clonesAt_same. by proj.
Qed.

(** ** The [fetchDidFail] chain *)

Lemma fdf_run_throw error event orig filtered ps t r plugin args σ x :
  fdf_run error event orig filtered ps t r →
  In (plugin, args, σ, Throws x)
     (hookCalls pluginEvents.FETCH_DID_FAIL t) →
  r = Threw x ∧
  last t = Some (EvCall plugin pluginEvents.FETCH_DID_FAIL args σ
                   (Throws x)) ∧
  ∃ before after, ps = before ++ plugin :: after ∧
    map call_plugin (hookCalls pluginEvents.FETCH_DID_FAIL t)
    = before ++ [plugin].
Proof.
  induction 1 as [|p rest e|p rest o e|p rest o f s y Ho Hf
                  |p rest o f s v tr res Ho Hf Hrun IH];
    simpl; intros Hin; try tauto.
  - destruct Hin as [Heq|[]]. inversion Heq; subst.
    repeat split; auto. by exists [], rest.
  - destruct Hin as [Heq|Hin]; [by inversion Heq|].
    destruct (IH Hin) as (-> & Hlast & before & after & -> & Hmap).
    repeat split; auto.
    + by rewrite !last_cons, Hlast.
    + exists (p :: before), after. split; [done|].
      unfold hookCalls in *. simpl. by rewrite Hmap.
Qed.

(** C8: when a [fetchDidFail] hook throws [X], [wrappedFetch] throws [X]
    (not the error that started the failure path); that call is the last
    thing the invocation does, and the [fetchDidFail] hooks that were
    called are those registered up to and including the one that threw:
    the ones after it are not called. *)
Theorem fetchDidFail_throw_propagates request fetchOptions event plugins
    σ res σ' tr plugin args σh X :
  wrappedFetch request fetchOptions event plugins σ = (res, σ', tr) →
  In (EvCall plugin pluginEvents.FETCH_DID_FAIL args σh (Throws X)) tr →
  res = Threw X ∧
  last tr = Some (EvCall plugin pluginEvents.FETCH_DID_FAIL args σh
                    (Throws X)) ∧
  ∃ before after,
    pluginUtils.filter plugins pluginEvents.FETCH_DID_FAIL
    = before ++ plugin :: after ∧
    map call_plugin (hookCalls pluginEvents.FETCH_DID_FAIL tr)
    = before ++ [plugin].
Proof.
  intros H Hin. apply In_hookCalls in Hin.
  open_run H Hrun; try done.
  inversion Hrun; subst; proj; try done.
  match goal with
  | Hf : fdf_run _ _ _ _ _ _ _ |- _ =>
      destruct (fdf_run_throw _ _ _ _ _ _ _ _ _ _ _ Hf Hin)
        as (-> & Hlast & Hrest)
  end.
  repeat split; auto.
  rewrite last_app, last_app, last_cons, last_app, Hlast. done.
Qed.

Lemma fdf_run_nil error event orig filtered t r :
  fdf_run error event orig filtered [] t r → t = [].
Proof. by inversion 1. Qed.

(** C9: when no plugin implements [fetchDidFail], the original request is
    not cloned ([originalRequest] is [null]) and [originalRequest!.clone()]
    is never evaluated, because no [fetchDidFail] call is made: the [null]
    holder is never dereferenced. *)
Theorem no_original_snapshot_without_fetchDidFail request fetchOptions
    event plugins σ res σ' tr :
  wrappedFetch request fetchOptions event plugins σ = (res, σ', tr) →
  pluginUtils.filter plugins pluginEvents.FETCH_DID_FAIL = [] →
  clonesAt OriginalSnapshot tr = [] ∧
  clonesAt FailOriginalCopy tr = [] ∧
  clonesAt FailFilteredCopy tr = [] ∧
  hookCalls pluginEvents.FETCH_DID_FAIL tr = [].
Proof.
  intros H Hnone. open_run H Hrun; try done.
  assert (Horig : ∀ orig t0,
    original_snapshot plugins (normalize request σ) orig t0 → t0 = []).
  { intros orig t0 [(_ & _ & ->)|(Hne & _)]; [done|by destruct Hne]. }
  inversion Hrun; subst;
    repeat match goal with
    | Ho : original_snapshot _ _ _ _ |- _ =>
        pose proof (Horig _ _ Ho); subst; clear Ho
    | Hf : fdf_run _ _ _ _ _ _ _ |- _ =>
        rewrite Hnone in Hf; apply fdf_run_nil in Hf; subst
    end; proj; try done.
Qed.

Lemma fdf_run_original_copies error event orig filtered ps t r :
  fdf_run error event orig filtered ps t r →
  Forall (λ d, d.1 = orig) (clonesAt FailOriginalCopy t).
Proof. induction 1; repeat constructor; done. Qed.

(** In every invocation, whatever the plugins, [originalRequest!.clone()] is
    evaluated on a reference: the holder is [null] only when there is
    no [fetchDidFail] plugin, and then the failure loop has no iteration. *)
Lemma original_copy_never_of_null request fetchOptions event plugins σ res
    σ' tr :
  wrappedFetch request fetchOptions event plugins σ = (res, σ', tr) →
  Forall (λ d, ∃ l, locOf d.1 = Some l) (clonesAt FailOriginalCopy tr).
Proof.
  intros H. open_run H Hrun; try (by constructor).
  inversion Hrun; subst; proj; try (by constructor).
  all: rewrite clonesAt_other by reflexivity; proj; try (by constructor).
  match goal with
  | Ho : original_snapshot _ _ _ _, Hf : fdf_run _ _ _ _ _ _ _ |- _ =>
      destruct Ho as [(Hnone & _ & _)|(_ & [l Horig] & _)];
      [rewrite Hnone in Hf; apply fdf_run_nil in Hf|
       apply fdf_run_original_copies in Hf]
  end.
  - subst. constructor.
  - subst. eapply Forall_impl; [eassumption|]. intros d ->. eauto.
Qed.

(** ** The [fetchDidSucceed] chain *)

(** What a [fetchDidSucceed] hook returns is the [response] of the next
    hook, or the result of the loop when it was the last one. *)
Lemma fds_run_next event filtered ps resp t res i c v :
  fds_run event filtered ps resp t res →
  hookCalls pluginEvents.FETCH_DID_SUCCEED t !! i = Some c →
  call_outcome c = Return v →
  match hookCalls pluginEvents.FETCH_DID_SUCCEED t !! (S i) with
  | Some next => call_args next = FetchDidSucceedArgs event filtered v
  | None => res = Ok v
  end.
Proof.
  intros Hrun. revert i.
  induction Hrun as [resp|p rest resp s e|p rest resp s v0 tr res Hrun IH];
    intros i Hi Hout.
  - done.
  - destruct i; simpl in Hi; [|done]. inversion Hi; subst. done.
  - destruct i as [|i]; simpl in Hi.
    + inversion Hi; subst. simpl in Hout. inversion Hout; subst.
      change (hookCalls pluginEvents.FETCH_DID_SUCCEED
                (EvCall p pluginEvents.FETCH_DID_SUCCEED
                   (FetchDidSucceedArgs event filtered resp) s (Return v)
                 :: tr) !! 1)
        with (hookCalls pluginEvents.FETCH_DID_SUCCEED tr !! 0).
      by inversion Hrun.
    + by apply IH.
Qed.

Lemma pipeline_run_fds_next fetchOptions event plugins request tr res i c
    v :
  pipeline_run fetchOptions event plugins request tr res →
  hookCalls pluginEvents.FETCH_DID_SUCCEED tr !! i = Some c →
  call_outcome c = Return v →
  match hookCalls pluginEvents.FETCH_DID_SUCCEED tr !! (S i) with
  | Some next => ∃ rq, call_args next = FetchDidSucceedArgs event rq v
  | None => res = Ok v
  end.
Proof.
  intros Hrun Hi Hout.
  inversion Hrun; subst; proj; try done.
  - match goal with
    | Hf : fds_run _ _ _ _ _ _ |- _ =>
        pose proof (fds_run_next _ _ _ _ _ _ _ _ _ Hf Hi Hout) as Hn
    end.
    destruct (hookCalls _ _ !! S i); eauto.
  - match goal with
    | Ha : attempt_throws _ _ _ _ _ _ _ |- _ =>
        destruct Ha as [init s Hs|init s resp t Hs Hf]
    end; proj; [done|].
    pose proof (fds_run_next _ _ _ _ _ _ _ _ _ Hf Hi Hout) as Hn.
    destruct (hookCalls _ _ !! S i); [eauto|done].
Qed.

(** C6: when a [fetchDidSucceed] hook returns [v], the next
    [fetchDidSucceed] hook gets [v] as its [response], and when it was the
    last one [wrappedFetch] returns [v]. *)
Theorem fetchDidSucceed_replacement_propagates request fetchOptions event
    plugins σ res σ' tr i plugin args σh v :
  wrappedFetch request fetchOptions event plugins σ = (res, σ', tr) →
  hookCalls pluginEvents.FETCH_DID_SUCCEED tr !! i
    = Some (plugin, args, σh, Return v) →
  match hookCalls pluginEvents.FETCH_DID_SUCCEED tr !! (S i) with
  | Some next => ∃ rq, call_args next = FetchDidSucceedArgs event rq v
  | None => res = Ok v
  end.
Proof.
  intros H Hi. open_run H Hrun; try done.
  by eapply pipeline_run_fds_next.
Qed.

(** C10: the value of a [fetchDidSucceed] hook is assigned to the response
    whatever it is. When the hook returns nothing, the next hook gets
    [undefined] as its [response], and when it was the last hook
    [wrappedFetch] returns [undefined]: the previous response is not kept. *)
Theorem fetchDidSucceed_void_return_is_assigned request fetchOptions event
    plugins σ res σ' tr :
  wrappedFetch request fetchOptions event plugins σ = (res, σ', tr) →
  (∀ i c next,
     hookCalls pluginEvents.FETCH_DID_SUCCEED tr !! i = Some c →
     call_outcome c = Return VUndefined →
     hookCalls pluginEvents.FETCH_DID_SUCCEED tr !! (S i) = Some next →
     ∃ rq, call_args next = FetchDidSucceedArgs event rq VUndefined) ∧
  (∀ c,
     last (hookCalls pluginEvents.FETCH_DID_SUCCEED tr) = Some c →
     call_outcome c = Return VUndefined →
     res = Ok VUndefined).
Proof.
  intros H. open_run H Hrun; try done.
  split.
  - intros i c next Hi Hout Hnext.
    pose proof (pipeline_run_fds_next _ _ _ _ _ _ _ _ _ Hrun Hi Hout)
      as Hn.
    by rewrite Hnext in Hn.
  - intros c Hlast Hout. rewrite last_lookup in Hlast.
    pose proof (pipeline_run_fds_next _ _ _ _ _ _ _ _ _ Hrun Hlast Hout)
      as Hn.
    rewrite lookup_ge_None_2 in Hn; [done|].
    apply lookup_lt_Some in Hlast. lia.
Qed.

(** ** The current request along the [requestWillFetch] chain *)

Lemma requestDuplications_app t1 t2 :
  requestDuplications (t1 ++ t2)
  = requestDuplications t1 ++ requestDuplications t2.
Proof. apply omap_app. Qed.

Lemma requestDuplications_call plugin n args σ out t :
  requestDuplications (EvCall plugin n args σ out :: t)
  = requestDuplications t.
Proof. reflexivity. Qed.

Lemma requestDuplications_fetch request init σ out t :
  requestDuplications (EvFetch request init σ out :: t)
  = requestDuplications t.
Proof. reflexivity. Qed.

Lemma requestDuplications_snapshot src res t :
  requestDuplications (EvClone FilteredSnapshot src res :: t)
  = (src, res) :: requestDuplications t.
Proof. reflexivity. Qed.

Lemma requestDuplications_nil : requestDuplications [] = [].
Proof. reflexivity. Qed.

#[local] Hint Rewrite requestDuplications_app requestDuplications_call
  requestDuplications_fetch requestDuplications_snapshot
  requestDuplications_nil : proj.

Lemma original_snapshot_dups plugins request orig t0 :
  original_snapshot plugins request orig t0 →
  requestDuplications t0 = [].
Proof. by intros [(_ & _ & ->)|(_ & _ & ->)]. Qed.

Lemma fds_run_dups event filtered ps resp t res :
  fds_run event filtered ps resp t res → requestDuplications t = [].
Proof. induction 1; simpl; auto. Qed.

Lemma fdf_run_dups error event orig filtered ps t r :
  fdf_run error event orig filtered ps t r → requestDuplications t = [].
Proof. induction 1; simpl; auto. Qed.

Lemma attempt_throws_dups fetchOptions event plugins request filtered
    error t :
  attempt_throws fetchOptions event plugins request filtered error t →
  requestDuplications t = [].
Proof.
  destruct 1 as [init σ Hs|init σ resp t Hs Hfds]; [done|].
  rewrite requestDuplications_fetch. by eapply fds_run_dups.
Qed.

Lemma duplicate_of_request σ src copy :
  duplicate_of σ src copy → ∃ l, locOf src = Some l.
Proof. intros (l & c & o & -> & _). exists l. apply locOf_reference. Qed.

(** After a hook returned [v], the next duplication is that of [v]; when
    there is none the loop is over and its result is [v]. *)
Lemma rwf_run_next event ps request t res i c v :
  rwf_run event ps request t res →
  hookCalls pluginEvents.REQUEST_WILL_FETCH t !! i = Some c →
  call_outcome c = Return v →
  match requestDuplications t !! (S i) with
  | Some d => d.1 = v
  | None => res = Ok v ∧ length (requestDuplications t) = S i
  end.
Proof.
  intros Hrun. revert i.
  induction Hrun as [rq|p rest rq e He|p rest rq copy s e Hd
                     |p rest rq copy s v0 tr res Hd Hrun IH];
    intros i Hi Hout.
  - done.
  - done.
  - destruct i; simpl in Hi; [|done]. inversion Hi; subst. done.
  - destruct i as [|i]; simpl in Hi.
    + inversion Hi; subst. simpl in Hout. inversion Hout; subst.
      change (requestDuplications
                (EvClone HookCopy rq (Ok copy)
                 :: EvCall p pluginEvents.REQUEST_WILL_FETCH
                      (RequestWillFetchArgs copy event) s (Return v)
                 :: tr))
        with ((rq, Ok copy) :: requestDuplications tr).
      simpl. by inversion Hrun.
    + specialize (IH i Hi Hout).
      change (requestDuplications
                (EvClone HookCopy rq (Ok copy)
                 :: EvCall p pluginEvents.REQUEST_WILL_FETCH
                      (RequestWillFetchArgs copy event) s (Return v0)
                 :: tr))
        with ((rq, Ok copy) :: requestDuplications tr).
      simpl. destruct (requestDuplications tr !! S i); [done|].
      destruct IH as [-> ->]. done.
Qed.

Lemma rwf_run_dup_sound event ps request t res :
  rwf_run event ps request t res →
  Forall dup_sound (requestDuplications t).
Proof.
  induction 1 as [rq|p rest rq e He|p rest rq copy s e Hd
                  |p rest rq copy s v0 tr res Hd Hrun IH].
  - constructor.
  - repeat constructor. done.
  - repeat constructor. by eapply duplicate_of_request.
  - constructor; [|done]. by eapply duplicate_of_request.
Qed.

(** A loop that ends normally made only successful duplications. *)
Lemma rwf_run_ok_dups event ps request t request' :
  rwf_run event ps request t (Ok request') →
  Forall (λ d, ∃ c, d.2 = Ok c) (requestDuplications t).
Proof.
  intros Hrun. remember (Ok request') as res eqn:Hres.
  induction Hrun as [rq|p rest rq e He|p rest rq copy s e Hd
                     |p rest rq copy s v0 tr res Hd Hrun IH];
    try discriminate.
  - constructor.
  - constructor; [by eexists|auto].
Qed.

Lemma sent_request fetchOptions σ request filtered init :
  sent fetchOptions σ request filtered init → ∃ l, locOf request = Some l.
Proof. intros [Hdup _]. by eapply duplicate_of_request. Qed.

Lemma pipeline_run_dup_sound fetchOptions event plugins request tr res :
  pipeline_run fetchOptions event plugins request tr res →
  Forall dup_sound (requestDuplications tr).
Proof.
  intros Hrun. inversion Hrun; subst;
    repeat match goal with
    | H : original_snapshot _ _ _ _ |- _ =>
        apply original_snapshot_dups in H
    | H : fds_run _ _ _ _ _ _ |- _ => apply fds_run_dups in H
    | H : fdf_run _ _ _ _ _ _ _ |- _ => apply fdf_run_dups in H
    | H : rwf_run _ _ _ _ _ |- _ => apply rwf_run_dup_sound in H
    end; proj.
  - constructor.
  - done.
  - apply Forall_app. split; [done|]. by repeat constructor.
  - apply Forall_app. split; [done|]. repeat constructor.
    by eapply sent_request.
  - apply Forall_app. split; [done|].
    match goal with
    | Ha : attempt_throws _ _ _ _ _ _ _ |- _ =>
        pose proof (attempt_throws_dups _ _ _ _ _ _ _ Ha) as Hd;
        destruct Ha as [init s Hs|init s resp t Hs Hf]
    end; rewrite Hd; repeat constructor; by eapply sent_request.
Qed.

(** When a duplication of [request] threw, nothing was transmitted. *)
Lemma pipeline_run_dup_threw fetchOptions event plugins request tr res
    src e :
  pipeline_run fetchOptions event plugins request tr res →
  In (src, Threw e) (requestDuplications tr) →
  fetchCalls tr = [].
Proof.
  intros Hrun Hin.
  assert (Hok : ∀ t, Forall (λ d : jsval * result jsval, ∃ c, d.2 = Ok c)
                       (requestDuplications t) →
                     In (src, Threw e) (requestDuplications t) → False).
  { intros t Hall Hi. rewrite Forall_forall in Hall.
    apply list_elem_of_In in Hi. by destruct (Hall _ Hi). }
  inversion Hrun; subst; proj; try done.
  - repeat match goal with
    | H : original_snapshot _ _ _ _ |- _ =>
        apply original_snapshot_dups in H
    | H : fds_run _ _ _ _ _ _ |- _ => apply fds_run_dups in H
    | H : rwf_run _ _ _ _ (Ok _) |- _ => apply rwf_run_ok_dups in H
    end.
    proj. apply in_app_or in Hin as [Hin|[Heq|[]]]; [|done].
    exfalso. eauto.
  - repeat match goal with
    | H : original_snapshot _ _ _ _ |- _ =>
        apply original_snapshot_dups in H
    | H : fdf_run _ _ _ _ _ _ _ |- _ => apply fdf_run_dups in H
    | H : attempt_throws _ _ _ _ _ _ _ |- _ =>
        apply attempt_throws_dups in H
    | H : rwf_run _ _ _ _ (Ok _) |- _ => apply rwf_run_ok_dups in H
    end.
    proj. apply in_app_or in Hin as [Hin|[Heq|[]]]; [|done].
    exfalso. eauto.
Qed.

Lemma pipeline_run_rwf_next fetchOptions event plugins request tr res i
    c v :
  pipeline_run fetchOptions event plugins request tr res →
  hookCalls pluginEvents.REQUEST_WILL_FETCH tr !! i = Some c →
  call_outcome c = Return v →
  ∃ res', requestDuplications tr !! (S i) = Some (v, res').
Proof.
  intros Hrun Hi Hout.
  assert (Hstep : ∀ t1 r1 src res0 rest,
    rwf_run event
      (pluginUtils.filter plugins pluginEvents.REQUEST_WILL_FETCH)
      request t1 r1 →
    hookCalls pluginEvents.REQUEST_WILL_FETCH t1 !! i = Some c →
    (∀ rq, r1 = Ok rq → src = rq) →
    ∃ res', (requestDuplications t1 ++ (src, res0) :: rest) !! (S i)
            = Some (v, res')).
  { intros t1 r1 src res0 rest Hr Hc Hsrc.
    pose proof (rwf_run_next _ _ _ _ _ _ _ _ Hr Hc Hout) as Hn.
    destruct (requestDuplications t1 !! S i) as [[v' r']|] eqn:Hd.
    - simpl in Hn. subst. exists r'. by apply lookup_app_l_Some.
    - destruct Hn as [-> Hlen]. exists res0.
      rewrite lookup_app_r by lia. rewrite Hlen, Nat.sub_diag.
      simpl. by rewrite (Hsrc v eq_refl). }
  inversion Hrun; subst;
    repeat match goal with
    | H : original_snapshot _ _ _ _ |- _ =>
        pose proof (original_snapshot_dups _ _ _ _ H);
        apply original_snapshot_others in H
          as (? & ? & ? & ? & ? & ? & ? & ?)
    | H : fds_run _ _ _ _ _ _ |- _ =>
        pose proof (fds_run_dups _ _ _ _ _ _ H);
        apply fds_run_others in H as (? & ? & ? & ? & ? & ? & ? & ?)
    | H : fdf_run _ _ _ _ _ _ _ |- _ =>
        pose proof (fdf_run_dups _ _ _ _ _ _ _ H);
        apply fdf_run_others in H as (? & ? & ? & ? & ? & ?)
    | H : attempt_throws _ _ _ _ _ _ _ |- _ =>
        pose proof (attempt_throws_dups _ _ _ _ _ _ _ H);
        apply attempt_throws_others in H as (? & ? & ? & ? & ? & ? & ?)
    end; proj; try done.
  - match goal with
    | Hr : rwf_run _ _ _ _ _ |- _ =>
        pose proof (rwf_run_next _ _ _ _ _ _ _ _ Hr Hi Hout) as Hn
    end.
    destruct (requestDuplications t1 !! S i) as [[v' r']|] eqn:Hd.
    + simpl in Hn. subst. eauto.
    + by destruct Hn.
  - eapply Hstep; eauto. by intros rq [= ->].
  - eapply Hstep; eauto. by intros rq [= ->].
  - eapply Hstep; eauto. by intros rq [= ->].
Qed.

(** C5, as the code has it: what a [requestWillFetch] hook returns is
    assigned to [request] whatever it is. The value cloned next (for the
    next hook, or for [pluginFilteredRequest]) is the value the hook
    returned; when the hook returned nothing that value is [undefined],
    [clone()] throws a [TypeError] on it and nothing is transmitted. *)
Theorem requestWillFetch_return_is_assigned request fetchOptions event
    plugins σ res σ' tr i plugin args σh v :
  wrappedFetch request fetchOptions event plugins σ = (res, σ', tr) →
  hookCalls pluginEvents.REQUEST_WILL_FETCH tr !! i
    = Some (plugin, args, σh, Return v) →
  ∃ res',
    requestDuplications tr !! (S i) = Some (v, res') ∧
    (v = VUndefined →
     res' = Threw TypeError_not_a_request ∧ fetchCalls tr = []).
Proof.
  intros H Hi. open_run H Hrun; try done.
  destruct (pipeline_run_rwf_next _ _ _ _ _ _ _ _ _ Hrun Hi eq_refl)
    as [res' Hd].
  exists res'. split; [done|]. intros ->.
  pose proof (pipeline_run_dup_sound _ _ _ _ _ _ Hrun) as Hs.
  rewrite Forall_lookup in Hs. specialize (Hs _ _ Hd).
  unfold dup_sound in Hs. simpl in Hs.
  destruct res' as [c|e]; [by destruct Hs|].
  rewrite (Hs ltac:(done)). split; [done|].
  eapply pipeline_run_dup_threw; [done|].
  apply list_elem_of_In, list_elem_of_lookup. eauto.
Qed.

Lemma consumeBody_other c l (σ0 : heap) :
  c ≠ l → consumeBody c σ0 !! l = σ0 !! l.
Proof.
  intros Hne. unfold consumeBody.
  destruct (σ0 !! c); [|done]. by apply list_lookup_insert_ne.
Qed.

(** The calls of the loop, given what the hooks returned. *)
Lemma rwf_run_chain event ps request t res Rs :
  rwf_run event ps request t res →
  map call_outcome (hookCalls pluginEvents.REQUEST_WILL_FETCH t)
    = map Return Rs →
  (∀ request', res = Ok request' →
     last (request :: Rs) = Some request' ∧
     map call_plugin (hookCalls pluginEvents.REQUEST_WILL_FETCH t) = ps) ∧
  ∀ i c, hookCalls pluginEvents.REQUEST_WILL_FETCH t !! i = Some c →
    ∃ prev copy, (request :: Rs) !! i = Some prev ∧
      call_args c = RequestWillFetchArgs copy event ∧
      duplicate_of (call_heap c) prev copy.
Proof.
  intros Hrun. revert Rs.
  induction Hrun as [rq|p rest rq e He|p rest rq copy s e Hd
                     |p rest rq copy s v0 tr res Hd Hrun IH];
    intros Rs HRs.
  - destruct Rs; [|done]. split; [|done].
    intros request' [= ->]. done.
  - done.
  - destruct Rs as [|R1 Rs]; [done|]. simpl in HRs. by inversion HRs.
  - destruct Rs as [|R1 Rs]; [done|].
    change (hookCalls pluginEvents.REQUEST_WILL_FETCH
              (EvClone HookCopy rq (Ok copy)
               :: EvCall p pluginEvents.REQUEST_WILL_FETCH
                    (RequestWillFetchArgs copy event) s (Return v0)
               :: tr))
      with ((p, RequestWillFetchArgs copy event, s, Return v0)
            :: hookCalls pluginEvents.REQUEST_WILL_FETCH tr) in *.
    simpl in HRs. inversion HRs; subst.
    destruct (IH Rs) as (Hend & Hcalls); [done|].
    split.
    + intros request' Hres. destruct (Hend _ Hres) as [Hlast Hplugins].
      split; [by rewrite last_cons_cons|]. simpl. by rewrite Hplugins.
    + intros [|i] c Hc; simpl in Hc.
      * inversion Hc; subst. exists rq, copy. by repeat split.
      * destruct (Hcalls i c Hc) as (prev & cp & Hp & Ha & Hdup).
        exists prev, cp. by repeat split.
Qed.

(** C1: in an invocation whose [requestWillFetch] hooks returned
    [R_1 .. R_N] (and [R_0] is the request of the caller), hook [i] got a
    duplicate of [R_(i-1)]: another object of the store with the same
    contents, such that reading its body leaves [R_(i-1)] as it was.
    When the invocation transmits, the host [fetch] is called once, with
    [R_N], and every plugin that implements the hook was called, in
    registration order. *)
Theorem transmission_receives_last_replacement request fetchOptions event
    plugins σ res σ' tr Rs :
  wrappedFetch request fetchOptions event plugins σ = (res, σ', tr) →
  map call_outcome (hookCalls pluginEvents.REQUEST_WILL_FETCH tr)
    = map Return Rs →
  (∀ i c, hookCalls pluginEvents.REQUEST_WILL_FETCH tr !! i = Some c →
     ∃ prev copy l k,
       (normalize request σ :: Rs) !! i = Some prev ∧
       call_args c = RequestWillFetchArgs copy event ∧
       duplicate_of (call_heap c) prev copy ∧
       locOf prev = Some l ∧ locOf copy = Some k ∧
       consumeBody k (call_heap c) !! l = call_heap c !! l) ∧
  (fetchCalls tr ≠ [] →
   (∃ RN init σf out,
      last (normalize request σ :: Rs) = Some RN ∧
      fetchCalls tr = [(RN, init, σf, out)]) ∧
   map call_plugin (hookCalls pluginEvents.REQUEST_WILL_FETCH tr)
     = pluginUtils.filter plugins pluginEvents.REQUEST_WILL_FETCH).
Proof.
  intros H HRs. open_run H Hrun; try done.
  assert (Hchain : ∀ t1 r1,
    rwf_run event
      (pluginUtils.filter plugins pluginEvents.REQUEST_WILL_FETCH)
      (normalize request σ) t1 r1 →
    map call_outcome (hookCalls pluginEvents.REQUEST_WILL_FETCH t1)
      = map Return Rs →
    (∀ request', r1 = Ok request' →
       last (normalize request σ :: Rs) = Some request' ∧
       map call_plugin (hookCalls pluginEvents.REQUEST_WILL_FETCH t1)
         = pluginUtils.filter plugins pluginEvents.REQUEST_WILL_FETCH) ∧
    ∀ i c, hookCalls pluginEvents.REQUEST_WILL_FETCH t1 !! i = Some c →
      ∃ prev copy l k,
        (normalize request σ :: Rs) !! i = Some prev ∧
        call_args c = RequestWillFetchArgs copy event ∧
        duplicate_of (call_heap c) prev copy ∧
        locOf prev = Some l ∧ locOf copy = Some k ∧
        consumeBody k (call_heap c) !! l = call_heap c !! l).
  { intros t1 r1 Hr Hm.
    destruct (rwf_run_chain _ _ _ _ _ _ Hr Hm) as (Hend & Hc).
    split; [done|]. intros i c Hi.
    destruct (Hc i c Hi) as (prev & copy & Hprev & Hargs & Hdup).
    pose proof Hdup as (l & k & o & -> & -> & Hne & _).
    exists (reference o l), (reference o k), l, k.
    repeat split; auto using locOf_reference.
    by apply consumeBody_other. }
  inversion Hrun; subst; proj; try done.
  all: destruct (Hchain _ _ ltac:(eassumption) HRs) as (Hend & Hc).
  all: split; [done|]; intros Hfetch; try done.
  - destruct (Hend _ eq_refl) as [Hl Hp]. split; [|done]. eauto 10.
  - match goal with
    | Ha : attempt_throws _ _ _ _ _ _ _ |- _ =>
        destruct (attempt_throws_fetch _ _ _ _ _ _ _ Ha)
          as (i0 & s0 & o0 & Hs & Hcalls)
    end.
    destruct (Hend _ eq_refl) as [Hl Hp].
    rewrite Hcalls. split; [|done]. eauto 10.
Qed.

(** ** The failure path when its duplications succeed *)

Lemma fds_run_throw event filtered ps resp t res plugin args σ e :
  fds_run event filtered ps resp t res →
  In (plugin, args, σ, Throws e)
     (hookCalls pluginEvents.FETCH_DID_SUCCEED t) →
  res = Threw e.
Proof.
  induction 1; simpl; intros Hin; try tauto.
  - destruct Hin as [Heq|[]]. by inversion Heq.
  - destruct Hin as [Heq|Hin]; [by inversion Heq|auto].
Qed.

Lemma fdf_run_complete error event orig filtered ps t r :
  fdf_run error event orig filtered ps t r →
  (∀ c, In c (hookCalls pluginEvents.FETCH_DID_FAIL t) →
        ∃ v, call_outcome c = Return v) →
  (∀ src e, ¬ In (src, Threw e) (clonesAt FailOriginalCopy t)) →
  (∀ src e, ¬ In (src, Threw e) (clonesAt FailFilteredCopy t)) →
  r = Ok tt ∧
  map call_plugin (hookCalls pluginEvents.FETCH_DID_FAIL t) = ps ∧
  Forall (failure_call_ok error event orig filtered)
    (hookCalls pluginEvents.FETCH_DID_FAIL t).
Proof.
  induction 1 as [|p rest e|p rest o e|p rest o f s y Ho Hf
                  |p rest o f s v tr res Ho Hf Hrun IH];
    intros Hret Hc1 Hc2.
  - repeat split; constructor.
  - exfalso. eapply Hc1. by left.
  - exfalso. eapply Hc2. by left.
  - exfalso. destruct (Hret (p, FetchDidFailArgs error event o f, s,
                             Throws y)) as [v Hv]; [by left|done].
  - destruct IH as (-> & Hp & Hall).
    + intros c Hc. apply Hret. by right.
    + intros src e Hin. eapply Hc1. right. exact Hin.
    + intros src e Hin. eapply Hc2. right. exact Hin.
    + repeat split.
      * simpl. by rewrite Hp.
      * constructor; [|done]. by exists o, f.
Qed.

(** The calls of the failure loop: each comes right after the two
    [clone()] calls of its iteration, and got their results. *)
Lemma fdf_run_rounds error event orig filtered ps t r c :
  fdf_run error event orig filtered ps t r →
  In c (hookCalls pluginEvents.FETCH_DID_FAIL t) →
  ∃ o f pre post,
    t = pre ++ [EvClone FailOriginalCopy orig (Ok o);
                EvClone FailFilteredCopy filtered (Ok f);
                EvCall (call_plugin c) pluginEvents.FETCH_DID_FAIL
                  (FetchDidFailArgs error event o f) (call_heap c)
                  (call_outcome c)] ++ post ∧
    duplicate_of (call_heap c) orig o ∧
    duplicate_of (call_heap c) filtered f.
Proof.
  induction 1 as [|p rest e|p rest o e|p rest o f s y Ho Hf
                  |p rest o f s v tr res Ho Hf Hrun IH];
    simpl; intros Hin; try tauto.
  - destruct Hin as [<-|[]]. by exists o, f, [], [].
  - destruct Hin as [<-|Hin]; [by exists o, f, [], tr|].
    destruct (IH Hin) as (o' & f' & pre & post & -> & Ho' & Hf').
    exists o', f',
      (EvClone FailOriginalCopy orig (Ok o)
       :: EvClone FailFilteredCopy filtered (Ok f)
       :: EvCall p pluginEvents.FETCH_DID_FAIL
            (FetchDidFailArgs error event o f) s (Return v) :: pre), post.
    by repeat split.
Qed.

(** X13: when the transmission or a [fetchDidSucceed] hook throws [E], no
    [fetchDidFail] hook throws and no [clone()] of the failure path
    throws, every plugin that implements [fetchDidFail] is called once, in
    registration order, and [E] itself is thrown. Each of these calls comes
    right after two [clone()] calls, one of [originalRequest] (the snapshot
    taken of the request of the caller) and one of [pluginFilteredRequest]
    (the snapshot taken of the request that was transmitted), and its
    arguments are [E], the event, the first copy as [originalRequest] and
    the second as [request]; both are duplicates of the snapshots in the
    store of the call. *)
Lemma fetchDidFail_chain_when_copies_succeed request fetchOptions event
    plugins σ res σ' tr E :
  wrappedFetch request fetchOptions event plugins σ = (res, σ', tr) →
  (∃ rq init σf, In (EvFetch rq init σf (Throws E)) tr) ∨
  (∃ p args σh,
     In (EvCall p pluginEvents.FETCH_DID_SUCCEED args σh (Throws E)) tr) →
  (∀ c, In c (hookCalls pluginEvents.FETCH_DID_FAIL tr) →
        ∃ v, call_outcome c = Return v) →
  (∀ src e, ¬ In (src, Threw e) (clonesAt FailOriginalCopy tr)) →
  (∀ src e, ¬ In (src, Threw e) (clonesAt FailFilteredCopy tr)) →
  res = Threw E ∧
  map call_plugin (hookCalls pluginEvents.FETCH_DID_FAIL tr)
    = pluginUtils.filter plugins pluginEvents.FETCH_DID_FAIL ∧
  ∃ rq filtered,
    clonesAt FilteredSnapshot tr = [(rq, Ok filtered)] ∧
    ∀ c, In c (hookCalls pluginEvents.FETCH_DID_FAIL tr) →
      ∃ originalRequest o f pre post,
        clonesAt OriginalSnapshot tr
          = [(normalize request σ, Ok originalRequest)] ∧
        tr = pre ++ [EvClone FailOriginalCopy originalRequest (Ok o);
                     EvClone FailFilteredCopy filtered (Ok f);
                     EvCall (call_plugin c) pluginEvents.FETCH_DID_FAIL
                       (FetchDidFailArgs E event o f) (call_heap c)
                       (call_outcome c)] ++ post ∧
        duplicate_of (call_heap c) originalRequest o ∧
        duplicate_of (call_heap c) filtered f.
Proof.
  intros H Hthrown Hret Hc1 Hc2.
  assert (Hthrown' :
    (∃ rq init σf, In (rq, init, σf, Throws E) (fetchCalls tr)) ∨
    (∃ p args σh, In (p, args, σh, Throws E)
                    (hookCalls pluginEvents.FETCH_DID_SUCCEED tr))).
  { destruct Hthrown as [(rq & i0 & s0 & Hin)|(p & a & s0 & Hin)].
    - left. exists rq, i0, s0. by apply In_fetchCalls.
    - right. exists p, a, s0. by apply In_hookCalls. }
  clear Hthrown. open_run H Hrun.
  1-3: by destruct Hthrown' as [(? & ? & ? & [])|(? & ? & ? & [])].
  inversion Hrun as [| | |orig t0 t1 rq filtered init s0 resp t2 v
                       Horig Hrwf Hsent Hfds
                     |orig t0 t1 rq filtered error t2 t3 r
                       Horig Hrwf Hatt Hfdf]; subst.
  1-3: proj; by destruct Hthrown' as [(? & ? & ? & [])|(? & ? & ? & [])].
  - exfalso. proj.
    destruct Hthrown' as [(rq' & i0 & s1 & [Heq|[]])|(p & a & s1 & Hin)];
      [done|].
    pose proof (fds_run_throw _ _ _ _ _ _ _ _ _ _ Hfds Hin) as Hx.
    discriminate Hx.
  - assert (error = E) as ->.
    { pose proof Hatt as Hatt'.
      destruct Hatt' as [init s Hs|init s resp t Hs Hf]; proj.
      - destruct Hthrown'
          as [(rq' & i0 & s0 & [Heq|[]])|(p & a & s0 & [])].
        by inversion Heq.
      - destruct Hthrown'
          as [(rq' & i0 & s0 & [Heq|[]])|(p & a & s0 & Hin)];
          [done|].
        pose proof (fds_run_throw _ _ _ _ _ _ _ _ _ _ Hf Hin) as Heq.
        by inversion Heq. }
    pose proof Hfdf as Hrounds.
    pose proof Horig as Horig'.
    proj.
    rewrite clonesAt_other in Hc1, Hc2 by reflexivity. proj.
    destruct (fdf_run_complete _ _ _ _ _ _ _ Hfdf Hret Hc1 Hc2)
      as (-> & Hp & Hall).
    split; [done|]. split; [done|].
    exists rq, filtered. split.
    { rewrite clonesAt_same. by proj. }
    intros c Hc.
    destruct (fdf_run_rounds _ _ _ _ _ _ _ c Hrounds Hc)
      as (o & f & pre & post & Ht3 & Ho & Hf).
    destruct Horig' as [(Hnone & _ & _)|(_ & _ & Ht0)].
    { rewrite Hnone in Hrounds. apply fdf_run_nil in Hrounds.
      subst t3. by destruct pre. }
    exists orig, o, f,
      (t0 ++ t1 ++ EvClone FilteredSnapshot rq (Ok filtered) :: t2 ++ pre),
      post.
    repeat split; auto.
    + rewrite Ht0, clonesAt_same, clonesAt_other by reflexivity.
      by proj.
    + rewrite Ht3, <- !app_assoc. simpl. by rewrite <- !app_assoc.
Qed.

(** ** Further properties of [wrappedFetch] *)

(** X1: when the request is a [Request] object, or a string from which
    [new Request] makes one, and the [preloadResponse] promise of a
    [FetchEvent] rejects with [e], [wrappedFetch] throws [e] itself and has
    done nothing else: no hook, no transmission, no clone. *)
Theorem preload_rejection_propagates request fetchOptions id e plugins σ :
  (∀ s, request = VString s → parseURL s ≠ None) →
  ∃ σ',
    wrappedFetch request fetchOptions (FetchEvent id (Some (Rejected e)))
      plugins σ = (Threw e, σ', []).
Proof.
  intros Hurl. unfold wrappedFetch.
  destruct request as [| |s|l|l|n|why|err];
    try (cbv [bind ret throw preloadStep await]; by eauto).
  destruct (parseURL s) as [url|] eqn:Hs; [|by destruct (Hurl s eq_refl)].
  cbv [bind ret throw newRequest preloadStep await]. eauto.
Qed.

Lemma preloadStep_passes event σ :
  leavesAtPreload event = false → preloadStep event σ = (Ok None, σ, []).
Proof.
  destruct event as [|id|id [[v|e]|]]; simpl; try done.
  intros Hv. cbv [bind ret]. by rewrite Hv.
Qed.

Lemma wrappedFetch_request l fetchOptions event plugins σ :
  leavesAtPreload event = false →
  wrappedFetch (VRequest l) fetchOptions event plugins σ
  = pipeline (VRequest l) fetchOptions event plugins σ.
Proof.
  intros Hev. unfold wrappedFetch, bind at 1 2. simpl.
  rewrite (preloadStep_passes _ _ Hev).
  by destruct (pipeline _ _ _ _ σ) as [[r1 s1] t1].
Qed.

(** X2: without plugins, and when the request can be cloned,
    [wrappedFetch] is one clone and one call of the host [fetch]: its
    result is what [fetch] returned or threw, unchanged and unwrapped, and
    [fetch] got the request of the caller, with the options unless the
    mode is "navigate". *)
Theorem without_plugins_is_fetch l (r : Request) fetchOptions event
    (σ : heap) :
  leavesAtPreload event = false →
  σ !! l = Some (ORequest r) →
  req_bodyUsed r = false →
  let init := if String.eqb (req_mode r) "navigate" then None
              else fetchOptions in
  let answer := fetch (VRequest l) init (σ ++ [ORequest r]) in
  wrappedFetch (VRequest l) fetchOptions event [] σ
  = (settle answer.1, answer.2,
     [EvClone FilteredSnapshot (VRequest l) (Ok (VRequest (length σ)));
      EvFetch (VRequest l) init (σ ++ [ORequest r]) answer.1]).
Proof.
  intros Hev Hl Hu init answer. rewrite wrappedFetch_request by done.
  unfold pipeline, pluginUtils.filter. simpl.
  cbv [bind ret try_catch clone getMode modeOf deref]. rewrite Hl.
  simpl. rewrite Hu. simpl.
  rewrite (lookup_app_l_Some _ _ _ _ Hl). simpl. fold init.
  assert (Hf : (if String.eqb (req_mode r) "navigate"
                then callFetch (VRequest l) None
                else callFetch (VRequest l) fetchOptions)
               = callFetch (VRequest l) init).
  { unfold init. by destruct (String.eqb _ _). }
  rewrite Hf. unfold callFetch. fold answer.
  destruct answer as [[resp|E] σ2]; reflexivity.
Qed.

(** A request given as a URL string that the host parses is the request
    [new Request(url)]: the invocation is the one on that new object. *)
Lemma url_string_is_new_request s url fetchOptions event plugins σ :
  parseURL s = Some url →
  wrappedFetch (VString s) fetchOptions event plugins σ
  = wrappedFetch (VRequest (length σ)) fetchOptions event plugins
      (σ ++ [ORequest (mkRequest url "GET" "cors" None false)]).
Proof.
  intros Hurl. unfold wrappedFetch, bind at 1 3. rewrite Hurl. simpl.
  by destruct (bind _ _ _) as [[r1 s1] t1].
Qed.

(** X14: a request given as a string that the host does not parse as a URL
    makes [wrappedFetch] throw the [TypeError] of [new Request], before the
    preload response is looked at: no hook, no transmission, no clone, and
    the store is as it was. *)
Theorem invalid_url_string_throws s fetchOptions event plugins σ :
  parseURL s = None →
  wrappedFetch (VString s) fetchOptions event plugins σ
  = (Threw TypeError_invalid_url, σ, []).
Proof.
  intros Hurl. unfold wrappedFetch, bind at 1. by rewrite Hurl.
Qed.

(** X3: an invocation that returns a response has not entered the failure
    path: no [fetchDidFail] hook was called and neither snapshot was cloned
    for one. *)
Theorem success_never_runs_failure_hooks request fetchOptions event plugins
    σ v σ' tr :
  wrappedFetch request fetchOptions event plugins σ = (Ok v, σ', tr) →
  hookCalls pluginEvents.FETCH_DID_FAIL tr = [] ∧
  clonesAt FailOriginalCopy tr = [] ∧
  clonesAt FailFilteredCopy tr = [].
Proof.
  intros H. remember (Ok v) as res eqn:Hres.
  open_run H Hrun; try done.
  inversion Hrun; subst; try discriminate; proj.
  - rewrite !clonesAt_other by reflexivity. by proj.
  - by destruct r.
Qed.

Lemma rwf_run_ok_quiet event ps request t request' :
  rwf_run event ps request t (Ok request') →
  Forall (λ a, threw a = false) t.
Proof.
  intros Hrun. remember (Ok request') as res eqn:Hres.
  induction Hrun; try discriminate; repeat constructor; auto.
Qed.

Lemma fds_run_ok_quiet event filtered ps resp t v :
  fds_run event filtered ps resp t (Ok v) →
  Forall (λ a, threw a = false) t.
Proof.
  intros Hrun. remember (Ok v) as res eqn:Hres.
  induction Hrun; try discriminate; repeat constructor; auto.
Qed.

(** X4: no exception is swallowed. When a hook, the host [fetch] or a
    [clone()] threw during an invocation, the invocation throws. *)
Theorem exceptions_are_never_swallowed request fetchOptions event plugins σ
    res σ' tr a :
  wrappedFetch request fetchOptions event plugins σ = (res, σ', tr) →
  In a tr →
  threw a = true →
  ∃ e, res = Threw e.
Proof.
  intros H Hin Ha. open_run H Hrun; try done.
  destruct res as [v|e]; [exfalso|eauto].
  assert (Hq : Forall (λ a, threw a = false) tr).
  { inversion Hrun; subst.
    - match goal with
      | Ho : original_snapshot _ _ _ _ |- _ =>
          destruct Ho as [(_ & _ & ->)|(_ & _ & ->)]
      end;
      repeat (apply Forall_app; split || constructor);
      eauto using rwf_run_ok_quiet, fds_run_ok_quiet.
    - by destruct r. }
  rewrite Forall_forall in Hq. apply list_elem_of_In in Hin.
  rewrite (Hq _ Hin) in Ha. done.
Qed.

(** *** The order of the actions *)

Lemma in_order_app_bound k t1 t2 :
  in_order t1 →
  in_order t2 →
  Forall (λ a, (phase a ≤ k)%nat) t1 →
  Forall (λ a, (k ≤ phase a)%nat) t2 →
  in_order (t1 ++ t2).
Proof.
  intros H1 H2 Hle Hge i j a b Hij Ha Hb.
  rewrite Forall_lookup in Hle. rewrite Forall_lookup in Hge.
  apply lookup_app_Some in Ha as [Ha|[Hi Ha]];
    apply lookup_app_Some in Hb as [Hb|[Hj Hb]].
  - by eapply H1.
  - specialize (Hle _ _ Ha). specialize (Hge _ _ Hb). simpl in *. lia.
  - apply lookup_lt_Some in Hb. lia.
  - eapply H2; [|exact Ha|exact Hb]. lia.
Qed.

Lemma in_order_same k t :
  Forall (λ a, phase a = k) t → in_order t.
Proof.
  intros Hall i j a b _ Ha Hb. rewrite Forall_lookup in Hall.
  rewrite (Hall _ _ Ha), (Hall _ _ Hb). done.
Qed.

Lemma rwf_run_phase event ps request t res :
  rwf_run event ps request t res → Forall (λ a, phase a = 1) t.
Proof. induction 1; repeat constructor; auto. Qed.

Lemma fds_run_phase event filtered ps resp t res :
  fds_run event filtered ps resp t res → Forall (λ a, phase a = 4) t.
Proof. induction 1; repeat constructor; auto. Qed.

Lemma fdf_run_phase error event orig filtered ps t r :
  fdf_run error event orig filtered ps t r → Forall (λ a, phase a = 5) t.
Proof. induction 1; repeat constructor; auto. Qed.

Lemma original_snapshot_phase plugins request orig t0 :
  original_snapshot plugins request orig t0 →
  Forall (λ a, phase a = 0) t0.
Proof. intros [(_ & _ & ->)|(_ & _ & ->)]; repeat constructor. Qed.

Lemma attempt_throws_phase fetchOptions event plugins request filtered
    error t :
  attempt_throws fetchOptions event plugins request filtered error t →
  in_order t ∧ Forall (λ a, (3 ≤ phase a ≤ 4)%nat) t.
Proof.
  destruct 1 as [init σ Hs|init σ resp t Hs Hfds].
  - split; [by apply (in_order_same 3); repeat constructor|].
    repeat constructor; simpl; lia.
  - apply fds_run_phase in Hfds. split.
    + apply (in_order_app_bound 3 [_] t).
      * apply (in_order_same 3). by repeat constructor.
      * by apply (in_order_same 4).
      * repeat constructor.
      * eapply Forall_impl; [exact Hfds|]. simpl. intros a ->. lia.
    + constructor; [simpl; lia|].
      eapply Forall_impl; [exact Hfds|]. simpl. intros a ->. lia.
Qed.

Lemma between_same k t :
  Forall (λ a, phase a = k) t →
  in_order t ∧ Forall (λ a, (k ≤ phase a ≤ k)%nat) t.
Proof.
  intros Hall. split; [by eapply in_order_same|].
  eapply Forall_impl; [exact Hall|]. simpl. intros a ->. lia.
Qed.

Lemma between_app lo1 hi1 lo2 hi2 t1 t2 :
  in_order t1 ∧ Forall (λ a, (lo1 ≤ phase a ≤ hi1)%nat) t1 →
  in_order t2 ∧ Forall (λ a, (lo2 ≤ phase a ≤ hi2)%nat) t2 →
  (lo1 ≤ hi1)%nat → (hi1 ≤ lo2)%nat → (lo2 ≤ hi2)%nat →
  in_order (t1 ++ t2) ∧
  Forall (λ a, (lo1 ≤ phase a ≤ hi2)%nat) (t1 ++ t2).
Proof.
  intros [H1 B1] [H2 B2] Ha Hb Hc. split.
  - apply (in_order_app_bound hi1); auto.
    + eapply Forall_impl; [exact B1|]. simpl. intros a ?. lia.
    + eapply Forall_impl; [exact B2|]. simpl. intros a ?. lia.
  - apply Forall_app. split.
    + eapply Forall_impl; [exact B1|]. simpl. intros a ?. lia.
    + eapply Forall_impl; [exact B2|]. simpl. intros a ?. lia.
Qed.

Lemma pipeline_run_in_order fetchOptions event plugins request tr res :
  pipeline_run fetchOptions event plugins request tr res → in_order tr.
Proof.
  intros Hrun. inversion Hrun; subst;
    repeat match goal with
    | H : original_snapshot _ _ _ _ |- _ =>
        apply original_snapshot_phase, between_same in H
    | H : rwf_run _ _ _ _ _ |- _ =>
        apply rwf_run_phase, between_same in H
    | H : fds_run _ _ _ _ _ _ |- _ =>
        apply fds_run_phase, between_same in H
    | H : fdf_run _ _ _ _ _ _ _ |- _ =>
        apply fdf_run_phase, between_same in H
    | H : attempt_throws _ _ _ _ _ _ _ |- _ =>
        apply attempt_throws_phase in H
    end.
  - apply (in_order_same 0). by repeat constructor.
  - eapply proj1, (between_app 0 0 1 1); [done|done|lia..].
  - eapply proj1, (between_app 0 0 1 2); [done| |lia..].
    apply (between_app 1 1 2 2); [done| |lia..].
    apply between_same. by repeat constructor.
  - eapply proj1, (between_app 0 0 1 4); [done| |lia..].
    apply (between_app 1 1 2 4); [done| |lia..].
    apply (between_app 2 2 3 4 [_] (_ :: _)); [| |lia..].
    { apply between_same. by repeat constructor. }
    apply (between_app 3 3 4 4 [_] t2); [|done|lia..].
    apply between_same. by repeat constructor.
  - eapply proj1, (between_app 0 0 1 5); [done| |lia..].
    apply (between_app 1 1 2 5); [done| |lia..].
    apply (between_app 2 2 3 5 [_] (t2 ++ t3)); [| |lia..].
    { apply between_same. by repeat constructor. }
    apply (between_app 3 4 5 5); [done|done|lia..].
Qed.

(** X5: the steps of an invocation never interleave and never go back. In
    the trace, the original snapshot comes before every [requestWillFetch]
    call and its clone, these before the filtered snapshot, this before the
    transmission, the transmission before every [fetchDidSucceed] call, and
    all of them before the clones and calls of the failure loop. *)
Theorem actions_follow_the_phases request fetchOptions event plugins σ res
    σ' tr :
  wrappedFetch request fetchOptions event plugins σ = (res, σ', tr) →
  in_order tr.
Proof.
  intros H. open_run H Hrun; try (by intros i j a b _ Ha).
  by eapply pipeline_run_in_order.
Qed.

(** *** What the hooks are given *)

Lemma fds_run_args event filtered ps resp t res :
  fds_run event filtered ps resp t res →
  Forall (λ c, ∃ r, call_args c = FetchDidSucceedArgs event filtered r)
    (hookCalls pluginEvents.FETCH_DID_SUCCEED t) ∧
  ∀ c0, hookCalls pluginEvents.FETCH_DID_SUCCEED t !! 0 = Some c0 →
    call_args c0 = FetchDidSucceedArgs event filtered resp.
Proof.
  induction 1 as [resp|p rest resp s e|p rest resp s v0 tr res Hrun IH].
  - split; [constructor|done].
  - split; [repeat constructor; by eexists|].
    intros c0 [= <-]. done.
  - destruct IH as [IH _]. split.
    + constructor; [by eexists|exact IH].
    + intros c0 [= <-]. done.
Qed.

(** X6: every [fetchDidSucceed] hook of an invocation is given the same
    request object, the one cloned into [pluginFilteredRequest] after the
    [requestWillFetch] loop, and the event of the caller; the first of them
    is given the response of the transmission. *)
Theorem fetchDidSucceed_hooks_share_the_snapshot request fetchOptions event
    plugins σ res σ' tr c :
  wrappedFetch request fetchOptions event plugins σ = (res, σ', tr) →
  In c (hookCalls pluginEvents.FETCH_DID_SUCCEED tr) →
  ∃ rq filtered init σf fetchResponse,
    clonesAt FilteredSnapshot tr = [(rq, Ok filtered)] ∧
    fetchCalls tr = [(rq, init, σf, Return fetchResponse)] ∧
    (∃ r, call_args c = FetchDidSucceedArgs event filtered r) ∧
    ∃ c0, hookCalls pluginEvents.FETCH_DID_SUCCEED tr !! 0 = Some c0 ∧
      call_args c0 = FetchDidSucceedArgs event filtered fetchResponse.
Proof.
  intros H Hin. open_run H Hrun; try done.
  assert (Hfds : ∀ filtered resp t r0,
    fds_run event filtered
      (pluginUtils.filter plugins pluginEvents.FETCH_DID_SUCCEED)
      resp t r0 →
    In c (hookCalls pluginEvents.FETCH_DID_SUCCEED t) →
    (∃ r, call_args c = FetchDidSucceedArgs event filtered r) ∧
    ∃ c0, hookCalls pluginEvents.FETCH_DID_SUCCEED t !! 0 = Some c0 ∧
      call_args c0 = FetchDidSucceedArgs event filtered resp).
  { intros filtered resp t r0 Hf Hc.
    destruct (fds_run_args _ _ _ _ _ _ Hf) as [Hall Hfirst].
    rewrite Forall_forall in Hall. split.
    - apply Hall. by apply list_elem_of_In.
    - destruct (hookCalls pluginEvents.FETCH_DID_SUCCEED t) as [|c0 cs];
        [done|].
      exists c0. split; [done|]. by apply Hfirst. }
  inversion Hrun; subst; proj; try done.
  - rewrite clonesAt_same. proj.
    destruct (Hfds _ _ _ _ ltac:(eassumption) Hin) as [Hc Hc0].
    by exists request', filtered, init, σ0, fetchResponse.
  - match goal with
    | Ha : attempt_throws _ _ _ _ _ _ _ |- _ =>
        destruct Ha as [init s Hs|init s resp t Hs Hf]
    end; proj; [done|].
    rewrite clonesAt_same. proj.
    destruct (Hfds _ _ _ _ Hf Hin) as [Hc Hc0].
    by exists request', filtered, init, s, resp.
Qed.

Lemma rwf_run_event event ps request t res plugin n args σ out :
  rwf_run event ps request t res →
  In (EvCall plugin n args σ out) t → args_event args = event.
Proof.
  induction 1; simpl; intros Hin;
    repeat (destruct Hin as [Heq|Hin];
            [try discriminate; by inversion Heq|]);
    auto; done.
Qed.

Lemma fds_run_event event filtered ps resp t res plugin n args σ out :
  fds_run event filtered ps resp t res →
  In (EvCall plugin n args σ out) t → args_event args = event.
Proof.
  induction 1; simpl; intros Hin;
    repeat (destruct Hin as [Heq|Hin];
            [try discriminate; by inversion Heq|]);
    auto; done.
Qed.

Lemma fdf_run_event error event orig filtered ps t r plugin n args σ out :
  fdf_run error event orig filtered ps t r →
  In (EvCall plugin n args σ out) t → args_event args = event.
Proof.
  induction 1; simpl; intros Hin;
    repeat (destruct Hin as [Heq|Hin];
            [try discriminate; by inversion Heq|]);
    auto; done.
Qed.

(** X7: every hook that is called, of whichever kind, is given the event
    that the caller passed to [wrappedFetch]. *)
Theorem hooks_get_the_event_of_the_caller request fetchOptions event plugins
    σ res σ' tr plugin n args σh out :
  wrappedFetch request fetchOptions event plugins σ = (res, σ', tr) →
  In (EvCall plugin n args σh out) tr →
  args_event args = event.
Proof.
  intros H Hin. open_run H Hrun; try done.
  inversion Hrun; subst;
    repeat match goal with
    | Ho : original_snapshot _ _ _ _ |- _ =>
        destruct Ho as [(_ & _ & ->)|(_ & _ & ->)]
    | Ha : attempt_throws _ _ _ _ _ _ _ |- _ =>
        destruct Ha as [? ? ?|? ? ? ? ? ?]
    end;
    simpl in Hin;
    repeat match goal with
    | Hi : In _ (_ ++ _) |- _ => apply in_app_or in Hi
    | Hi : In _ (_ :: _) |- _ => destruct Hi as [Heq|Hi]
    | Hi : _ ∨ _ |- _ => destruct Hi as [Hi|Hi]
    | Heq : EvClone _ _ _ = EvCall _ _ _ _ _ |- _ => discriminate Heq
    | Heq : EvFetch _ _ _ _ = EvCall _ _ _ _ _ |- _ => discriminate Heq
    | Hi : In _ [] |- _ => destruct Hi
    | Hi : False |- _ => destruct Hi
    end;
    eauto using rwf_run_event, fds_run_event, fdf_run_event.
Qed.

(** *** The order of dispatch *)

Lemma rwf_run_prefix event ps request t res :
  rwf_run event ps request t res →
  map call_plugin (hookCalls pluginEvents.REQUEST_WILL_FETCH t)
    `prefix_of` ps.
Proof.
  induction 1; simpl; try apply prefix_nil.
  - apply prefix_cons, prefix_nil.
  - by apply prefix_cons.
Qed.

Lemma fds_run_prefix event filtered ps resp t res :
  fds_run event filtered ps resp t res →
  map call_plugin (hookCalls pluginEvents.FETCH_DID_SUCCEED t)
    `prefix_of` ps.
Proof.
  induction 1; simpl; try apply prefix_nil.
  - apply prefix_cons, prefix_nil.
  - by apply prefix_cons.
Qed.

Lemma fdf_run_prefix error event orig filtered ps t r :
  fdf_run error event orig filtered ps t r →
  map call_plugin (hookCalls pluginEvents.FETCH_DID_FAIL t)
    `prefix_of` ps.
Proof.
  induction 1; simpl; try apply prefix_nil.
  - apply prefix_cons, prefix_nil.
  - by apply prefix_cons.
Qed.

(** X8: for each of the three hooks, the plugins whose hook was called are
    an initial part of the plugins that implement it, in registration
    order: no plugin is called twice for one place in the list, none is
    called out of order, and none is skipped before a later one is called. *)
Theorem hooks_are_called_in_registration_order request fetchOptions event
    plugins σ res σ' tr :
  wrappedFetch request fetchOptions event plugins σ = (res, σ', tr) →
  map call_plugin (hookCalls pluginEvents.REQUEST_WILL_FETCH tr)
    `prefix_of`
    pluginUtils.filter plugins pluginEvents.REQUEST_WILL_FETCH ∧
  map call_plugin (hookCalls pluginEvents.FETCH_DID_SUCCEED tr)
    `prefix_of`
    pluginUtils.filter plugins pluginEvents.FETCH_DID_SUCCEED ∧
  map call_plugin (hookCalls pluginEvents.FETCH_DID_FAIL tr)
    `prefix_of`
    pluginUtils.filter plugins pluginEvents.FETCH_DID_FAIL.
Proof.
  intros H.
  open_run H Hrun; try (repeat split; apply prefix_nil).
  inversion Hrun; subst; proj;
    try match goal with
    | Ha : attempt_throws _ _ _ _ _ _ _ |- _ =>
        destruct Ha as [? ? ?|? ? ? ? ? ?]; proj
    end;
    repeat split;
    eauto using prefix_nil, rwf_run_prefix, fds_run_prefix, fdf_run_prefix.
Qed.

(** *** When [clone()] throws *)

Lemma rwf_run_clone_throw event ps request t res src e :
  rwf_run event ps request t res →
  In (src, Threw e) (clonesAt HookCopy t) →
  res = Threw e.
Proof.
  induction 1; simpl; intros Hin; try tauto.
  - destruct Hin as [Heq|[]]. by inversion Heq.
  - destruct Hin as [Heq|[]]. by inversion Heq.
  - destruct Hin as [Heq|Hin]; [by inversion Heq|auto].
Qed.

(** X9: when the [clone()] that makes the copy for a [requestWillFetch]
    hook throws [e] (the current request was already read, or is not a
    request), [wrappedFetch] reports it as a plugin failure, a
    [WorkboxError] "plugin-error-request-will-fetch" built from
    [{thrownError: e}], although no hook threw; nothing is transmitted and
    no [fetchDidFail] hook is called. *)
Theorem hook_copy_failure_is_a_plugin_error request fetchOptions event
    plugins σ res σ' tr src e :
  wrappedFetch request fetchOptions event plugins σ = (res, σ', tr) →
  In (src, Threw e) (clonesAt HookCopy tr) →
  res = Threw (VWorkboxError
                 (newWorkboxError plugin_error_request_will_fetch
                    (detailsThrownError e))) ∧
  Forall (λ c, ∃ v, call_outcome c = Return v)
    (hookCalls pluginEvents.REQUEST_WILL_FETCH tr) ∧
  fetchCalls tr = [] ∧
  hookCalls pluginEvents.FETCH_DID_FAIL tr = [].
Proof.
  intros H Hin. open_run H Hrun; try done.
  assert (Hret : ∀ t r0,
    rwf_run event
      (pluginUtils.filter plugins pluginEvents.REQUEST_WILL_FETCH)
      (normalize request σ) t r0 →
    In (src, Threw e) (clonesAt HookCopy t) →
    Forall (λ c, ∃ v, call_outcome c = Return v)
      (hookCalls pluginEvents.REQUEST_WILL_FETCH t)).
  { intros t r0 Hr Hc. apply Forall_forall. intros [[[p a] s] [v|x]] Hx;
      [by eexists|exfalso].
    apply list_elem_of_In in Hx.
    pose proof (rwf_run_throw _ _ _ _ _ _ _ _ _ Hr Hx) as H1.
    pose proof (rwf_run_clone_throw _ _ _ _ _ _ _ Hr Hc) as H2.
    (* the loop ended with the throw of the clone, after the last call *)
    clear -Hr Hx Hc. induction Hr; simpl in *; try tauto.
    - destruct Hc as [Heq|[]]. discriminate Heq.
    - destruct Hx as [Heq|Hx]; [discriminate Heq|].
      destruct Hc as [Heq|Hc]; [discriminate Heq|]. auto. }
  inversion Hrun; subst; proj; try done.
  all: rewrite ?clonesAt_other in Hin by reflexivity; proj; try done.
  all: match goal with
       | Hr : rwf_run _ _ _ _ _ |- _ =>
           pose proof (rwf_run_clone_throw _ _ _ _ _ _ _ Hr Hin) as Heq;
           pose proof (Hret _ _ Hr Hin) as Hall
       end; try discriminate.
  inversion Heq; subst. done.
Qed.

(** X10: when one of the two snapshots cannot be taken (the [clone()] for
    [originalRequest] or for [pluginFilteredRequest] throws [e]),
    [wrappedFetch] throws [e] itself, not wrapped; nothing is transmitted,
    and no [fetchDidSucceed] or [fetchDidFail] hook is called. *)
Theorem snapshot_failure_is_thrown_as_it_is request fetchOptions event
    plugins σ res σ' tr src e :
  wrappedFetch request fetchOptions event plugins σ = (res, σ', tr) →
  In (src, Threw e) (clonesAt OriginalSnapshot tr) ∨
  In (src, Threw e) (clonesAt FilteredSnapshot tr) →
  res = Threw e ∧
  fetchCalls tr = [] ∧
  hookCalls pluginEvents.FETCH_DID_SUCCEED tr = [] ∧
  hookCalls pluginEvents.FETCH_DID_FAIL tr = [].
Proof.
  intros H Hin. open_run H Hrun; try (by destruct Hin).
  assert (Ho : ∀ orig t0,
    original_snapshot plugins (normalize request σ) orig t0 →
    In (src, Threw e) (clonesAt OriginalSnapshot t0) → False).
  { intros orig t0 [(_ & _ & ->)|(_ & _ & ->)]; simpl; [done|].
    intros [Heq|[]]. discriminate Heq. }
  inversion Hrun; subst; proj; destruct Hin as [Hin|Hin];
    rewrite ?clonesAt_same in Hin;
    rewrite ?clonesAt_other in Hin by reflexivity;
    proj; try done;
    try (exfalso; eauto; fail);
    try (destruct Hin as [Heq|[]]; by inversion Heq).
Qed.

(** *** Where the copies of the failure loop come from *)

Lemma fdf_run_filtered_copies error event orig filtered ps t r :
  fdf_run error event orig filtered ps t r →
  Forall (λ d, d.1 = filtered) (clonesAt FailFilteredCopy t).
Proof. induction 1; repeat constructor; done. Qed.

(** X11: the copies that the [fetchDidFail] hooks are given are cloned from
    the two snapshots. Every [clone()] of the failure loop for
    [originalRequest] is on the object cloned at the very start from the
    request of the caller, and every [clone()] for [request] is on the
    object cloned after the [requestWillFetch] loop from the request that
    was given to [fetch]. *)
Theorem failure_copies_come_from_the_snapshots request fetchOptions event
    plugins σ res σ' tr :
  wrappedFetch request fetchOptions event plugins σ = (res, σ', tr) →
  (∀ src r, In (src, r) (clonesAt FailOriginalCopy tr) →
     clonesAt OriginalSnapshot tr = [(normalize request σ, Ok src)]) ∧
  (∀ src r, In (src, r) (clonesAt FailFilteredCopy tr) →
     ∃ rq init σf out,
       clonesAt FilteredSnapshot tr = [(rq, Ok src)] ∧
       fetchCalls tr = [(rq, init, σf, out)]).
Proof.
  intros H. open_run H Hrun; try done.
  inversion Hrun; subst; proj;
    rewrite ?clonesAt_other by reflexivity; proj; try done.
  match goal with
  | Hf : fdf_run _ _ _ _ _ _ _ |- _ =>
      pose proof (fdf_run_original_copies _ _ _ _ _ _ _ Hf) as Ho;
      pose proof (fdf_run_filtered_copies _ _ _ _ _ _ _ Hf) as Hc
  end.
  rewrite Forall_forall in Ho. rewrite Forall_forall in Hc. split.
  - intros src r0 Hin. apply list_elem_of_In in Hin.
    pose proof (Ho _ Hin) as Hsrc. simpl in Hsrc. subst.
    match goal with
    | Hs : original_snapshot _ _ _ _, Hf : fdf_run _ _ _ _ _ _ _ |- _ =>
        destruct Hs as [(Hnone & _ & _)|(_ & _ & ->)];
        [rewrite Hnone in Hf; apply fdf_run_nil in Hf; subst;
         by apply not_elem_of_nil in Hin|]
    end.
    by rewrite clonesAt_same.
  - intros src r0 Hin. apply list_elem_of_In in Hin.
    pose proof (Hc _ Hin) as Hsrc. simpl in Hsrc. subst.
    rewrite clonesAt_same. proj.
    match goal with
    | Ha : attempt_throws _ _ _ _ _ _ _ |- _ =>
        destruct (attempt_throws_fetch _ _ _ _ _ _ _ Ha)
          as (i0 & s0 & o0 & _ & Hcalls)
    end.
    rewrite Hcalls. eauto 10.
Qed.

(** *** Plugins without hooks *)

Lemma bind_ext {A B} (m : M A) (k k' : A → M B) σ :
  (∀ a s, k a s = k' a s) → bind m k σ = bind m k' σ.
Proof.
  intros Hk. unfold bind. destruct (m σ) as [[[a|e] s1] t1]; [|done].
  by rewrite Hk.
Qed.

Lemma bind_ext_l {A B} (m m' : M A) (k : A → M B) σ :
  m σ = m' σ → bind m k σ = bind m' k σ.
Proof. intros Hm. unfold bind. by rewrite Hm. Qed.

Lemma try_catch_ext_l {A} (m m' : M A) (handler : jsval → M A) σ :
  m σ = m' σ → try_catch m handler σ = try_catch m' handler σ.
Proof. intros Hm. unfold try_catch. by rewrite Hm. Qed.

Lemma requestWillFetchLoop_skip event l1 plugin l2 request σ :
  requestWillFetch plugin = None →
  requestWillFetchLoop event (l1 ++ plugin :: l2) request σ
  = requestWillFetchLoop event (l1 ++ l2) request σ.
Proof.
  intros Hp. revert request σ.
  induction l1 as [|p l1 IH]; intros request σ; simpl.
  - change (getProperty pluginEvents.REQUEST_WILL_FETCH plugin)
      with (requestWillFetch plugin). by rewrite Hp.
  - destruct (getProperty _ p); [|apply IH].
    apply bind_ext. intros c s. apply bind_ext. intros v s'. apply IH.
Qed.

Lemma fetchDidSucceedLoop_skip event l1 plugin l2 filtered resp σ :
  fetchDidSucceed plugin = None →
  fetchDidSucceedLoop event (l1 ++ plugin :: l2) filtered resp σ
  = fetchDidSucceedLoop event (l1 ++ l2) filtered resp σ.
Proof.
  intros Hp. revert resp σ.
  induction l1 as [|p l1 IH]; intros resp σ; simpl.
  - change (getProperty pluginEvents.FETCH_DID_SUCCEED plugin)
      with (fetchDidSucceed plugin). by rewrite Hp.
  - destruct (getProperty _ p); [|apply IH].
    apply bind_ext. intros v s. apply IH.
Qed.

Lemma filter_skip l1 plugin l2 :
  fetchDidFail plugin = None →
  pluginUtils.filter (l1 ++ plugin :: l2) pluginEvents.FETCH_DID_FAIL
  = pluginUtils.filter (l1 ++ l2) pluginEvents.FETCH_DID_FAIL.
Proof.
  intros Hp. unfold pluginUtils.filter.
  rewrite !List.filter_app. simpl. unfold hasProperty at 2.
  change (getProperty pluginEvents.FETCH_DID_FAIL plugin)
    with (fetchDidFail plugin). by rewrite Hp.
Qed.

(** X12: a plugin that implements none of [requestWillFetch],
    [fetchDidSucceed] and [fetchDidFail] has no part in an invocation:
    with it or without it in the list, at any place, the result, the final
    store and every call made are the same. *)
Theorem plugin_without_hooks_changes_nothing request fetchOptions event l1
    plugin l2 σ :
  requestWillFetch plugin = None →
  fetchDidSucceed plugin = None →
  fetchDidFail plugin = None →
  wrappedFetch request fetchOptions event (l1 ++ plugin :: l2) σ
  = wrappedFetch request fetchOptions event (l1 ++ l2) σ.
Proof.
  intros Hr Hs Hf. unfold wrappedFetch.
  apply bind_ext. intros rq s0. apply bind_ext. intros [v|] s1; [done|].
  unfold pipeline. cbv zeta. rewrite (filter_skip _ _ _ Hf).
  apply bind_ext. intros orig s2.
  etrans.
  { apply bind_ext_l, try_catch_ext_l, requestWillFetchLoop_skip, Hr. }
  apply bind_ext. intros rq' s3. apply bind_ext. intros filtered s4.
  apply try_catch_ext_l.
  apply bind_ext. intros mode s5. apply bind_ext. intros resp s6.
  by apply fetchDidSucceedLoop_skip.
Qed.

End Host.

(** ** The failure path after a [fetchDidSucceed] hook read the request *)

(** C2 at a failing input: a POST request, a [fetchDidSucceed] hook that
    reads the body of the request it is given and then throws [E], and a
    plugin that implements [fetchDidFail]. The hook was given
    [pluginFilteredRequest] itself, so [pluginFilteredRequest.clone()]
    throws in the failure path: the [fetchDidFail] hook is never called and
    a [TypeError] is thrown in place of [E]. *)
Theorem fetchDidFail_skipped_after_body_read :
  let plugins := [readThenThrow; failLogger] in
  let run := wrappedFetch exampleMessage networkOk exampleParseURL
               (VRequest 0) None EventUndefined plugins
               [ORequest postRequest] in
  map call_outcome (hookCalls pluginEvents.FETCH_DID_SUCCEED run.2)
    = [Throws (VError 7)] ∧
  pluginUtils.filter plugins pluginEvents.FETCH_DID_FAIL = [failLogger] ∧
  hookCalls pluginEvents.FETCH_DID_FAIL run.2 = [] ∧
  clonesAt FailOriginalCopy run.2 = [(VRequest 1, Ok (VRequest 4))] ∧
  clonesAt FailFilteredCopy run.2
    = [(VRequest 2, Threw TypeError_body_used)] ∧
  run.1.1 = Threw TypeError_body_used.
Proof. repeat split. Qed.

(** ** The theorems at concrete invocations *)

Lemma preload_response_returned_verbatim_witness :
  (∀ s, VString "/a" = VString s → exampleParseURL s ≠ None) ∧
  truthy (VResponse 0) = true ∧
  ∃ σ',
    wrappedFetch exampleMessage networkOk exampleParseURL (VString "/a")
      None (FetchEvent 1 (Some (Fulfilled (VResponse 0))))
      [rewriteTo "/y"; replaceResponse; failLogger]
      [OResponse response200]
    = (Ok (VResponse 0), σ', []).
Proof.
  assert (Hurl : ∀ s, VString "/a" = VString s → exampleParseURL s ≠ None).
  { intros s [= <-]. vm_compute. discriminate. }
  split; [exact Hurl|]. split; [reflexivity|].
  exact (preload_response_returned_verbatim exampleMessage networkOk
           exampleParseURL (VString "/a") None 1 (VResponse 0)
           [rewriteTo "/y"; replaceResponse; failLogger]
           [OResponse response200] Hurl eq_refl).
Defined.

(** The preload response is not what comes first: with a request given as
    a string that is not a URL, [new Request] throws before the preload
    response is looked at, and the [TypeError] is thrown although the
    event holds a preload response. *)
Lemma preload_is_returned_verbatim_counterexample :
  let event := FetchEvent 1 (Some (Fulfilled (VResponse 0))) in
  let run := wrappedFetch exampleMessage networkOk exampleParseURL
               (VString "http://[") None event [] [OResponse response200] in
  truthy (VResponse 0) = true ∧
  run.1.1 = Threw TypeError_invalid_url ∧
  ¬ preload_is_returned_verbatim event run.1.1 run.2.
Proof.
  intros event run. split; [reflexivity|]. split; [reflexivity|].
  intros Hclaim.
  destruct (Hclaim 1 (VResponse 0) eq_refl eq_refl) as [Hres _].
  discriminate Hres.
Qed.

Lemma transmission_receives_last_replacement_witness :
  let request := VRequest 0 in
  let plugins := [rewriteTo "/y"; failLogger; rewriteTo "/z"] in
  let σ := [ORequest postRequest] in
  let run := wrappedFetch exampleMessage networkOk exampleParseURL request
               (Some [("credentials", "include")]) EventUndefined plugins
               σ in
  let Rs := [VRequest 3; VRequest 5] in
  map call_outcome (hookCalls pluginEvents.REQUEST_WILL_FETCH run.2)
    = map Return Rs ∧
  fetchCalls run.2 ≠ [] ∧
  (∀ i c, hookCalls pluginEvents.REQUEST_WILL_FETCH run.2 !! i = Some c →
     ∃ prev copy l k,
       (normalize request σ :: Rs) !! i = Some prev ∧
       call_args c = RequestWillFetchArgs copy EventUndefined ∧
       duplicate_of (call_heap c) prev copy ∧
       locOf prev = Some l ∧ locOf copy = Some k ∧
       consumeBody k (call_heap c) !! l = call_heap c !! l) ∧
  (∃ RN init σf out,
     last (normalize request σ :: Rs) = Some RN ∧
     fetchCalls run.2 = [(RN, init, σf, out)]) ∧
  map call_plugin (hookCalls pluginEvents.REQUEST_WILL_FETCH run.2)
    = pluginUtils.filter plugins pluginEvents.REQUEST_WILL_FETCH.
Proof.
  intros request plugins σ run Rs.
  assert (H1 : map call_outcome
                 (hookCalls pluginEvents.REQUEST_WILL_FETCH run.2)
               = map Return Rs) by reflexivity.
  assert (H2 : fetchCalls run.2 ≠ []) by (vm_compute; discriminate).
  split; [exact H1|]. split; [exact H2|].
  destruct (transmission_receives_last_replacement exampleMessage networkOk
              exampleParseURL request (Some [("credentials", "include")])
              EventUndefined plugins σ run.1.1 run.1.2 run.2 Rs eq_refl H1)
    as [Hcopies Hsent].
  split; [exact Hcopies|]. exact (Hsent H2).
Defined.

Lemma requestWillFetch_throw_is_wrapped_witness :
  let plugins := [throwingRequestWillFetch; failLogger] in
  let run := wrappedFetch exampleMessage networkOk exampleParseURL
               (VRequest 0) None EventUndefined plugins
               [ORequest postRequest] in
  In (EvCall throwingRequestWillFetch pluginEvents.REQUEST_WILL_FETCH
        (RequestWillFetchArgs (VRequest 2) EventUndefined)
        [ORequest postRequest; ORequest postRequest; ORequest postRequest]
        (Throws (VError 3)))
     run.2 ∧
  (∃ err, run.1.1 = Threw (VWorkboxError err) ∧
     name err = "plugin-error-request-will-fetch" ∧
     thrownError (details err) = Some (VError 3)) ∧
  fetchCalls run.2 = [] ∧
  hookCalls pluginEvents.FETCH_DID_FAIL run.2 = [].
Proof.
  intros plugins run.
  assert (Hin : In (EvCall throwingRequestWillFetch
                      pluginEvents.REQUEST_WILL_FETCH
                      (RequestWillFetchArgs (VRequest 2) EventUndefined)
                      [ORequest postRequest; ORequest postRequest;
                       ORequest postRequest]
                      (Throws (VError 3))) run.2)
    by (simpl; auto).
  split; [exact Hin|].
  exact (requestWillFetch_throw_is_wrapped exampleMessage networkOk
           exampleParseURL (VRequest 0) None EventUndefined plugins
           [ORequest postRequest] run.1.1 run.1.2 run.2 _ _ _ _ eq_refl
           Hin).
Defined.

Lemma requestWillFetch_return_is_assigned_witness :
  let plugins := [voidRequestWillFetch; rewriteTo "/y"] in
  let run := wrappedFetch exampleMessage networkOk exampleParseURL
               (VRequest 0) None EventUndefined plugins
               [ORequest getRequest] in
  hookCalls pluginEvents.REQUEST_WILL_FETCH run.2 !! 0
    = Some (voidRequestWillFetch,
            RequestWillFetchArgs (VRequest 1) EventUndefined,
            [ORequest getRequest; ORequest getRequest],
            Return VUndefined) ∧
  ∃ res',
    requestDuplications run.2 !! 1 = Some (VUndefined, res') ∧
    (VUndefined = VUndefined →
     res' = Threw TypeError_not_a_request ∧ fetchCalls run.2 = []).
Proof.
  intros plugins run.
  assert (Hcall : hookCalls pluginEvents.REQUEST_WILL_FETCH run.2 !! 0
                  = Some (voidRequestWillFetch,
                          RequestWillFetchArgs (VRequest 1) EventUndefined,
                          [ORequest getRequest; ORequest getRequest],
                          Return VUndefined))
    by reflexivity.
  split; [exact Hcall|].
  exact (requestWillFetch_return_is_assigned exampleMessage networkOk
           exampleParseURL (VRequest 0) None EventUndefined plugins
           [ORequest getRequest] run.1.1 run.1.2 run.2 0 _ _ _ VUndefined
           eq_refl Hcall).
Defined.

(** A void return is not a pass-through: with one hook that returns
    nothing, the request cloned after the hook is [undefined], not the
    request of the caller; [clone()] throws on it and nothing is
    transmitted. *)
Lemma void_return_keeps_request_counterexample :
  let run := wrappedFetch exampleMessage networkOk exampleParseURL
               (VRequest 0) None EventUndefined [voidRequestWillFetch]
               [ORequest getRequest] in
  map call_outcome (hookCalls pluginEvents.REQUEST_WILL_FETCH run.2)
    = [Return VUndefined] ∧
  requestDuplications run.2
    = [(VRequest 0, Ok (VRequest 1));
       (VUndefined, Threw TypeError_not_a_request)] ∧
  fetchCalls run.2 = [] ∧
  run.1.1 = Threw TypeError_not_a_request ∧
  ¬ void_return_keeps_request run.2.
Proof.
  intros run. repeat split.
  intros Hclaim.
  destruct (Hclaim 0 _ (VRequest 0, Ok (VRequest 1)) eq_refl eq_refl eq_refl)
    as [res' Hnext].
  discriminate Hnext.
Qed.

Lemma fetchDidSucceed_replacement_propagates_witness :
  let plugins := [replaceResponse; voidFetchDidSucceed] in
  let run := wrappedFetch exampleMessage networkOk exampleParseURL
               (VRequest 0) None EventUndefined plugins
               [ORequest getRequest] in
  hookCalls pluginEvents.FETCH_DID_SUCCEED run.2 !! 0
    = Some (replaceResponse,
            FetchDidSucceedArgs EventUndefined (VRequest 1) (VResponse 2),
            [ORequest getRequest; ORequest getRequest;
             OResponse response200],
            Return (VResponse 3)) ∧
  match hookCalls pluginEvents.FETCH_DID_SUCCEED run.2 !! 1 with
  | Some next =>
      ∃ rq, call_args next
            = FetchDidSucceedArgs EventUndefined rq (VResponse 3)
  | None => run.1.1 = Ok (VResponse 3)
  end.
Proof.
  intros plugins run.
  assert (Hcall : hookCalls pluginEvents.FETCH_DID_SUCCEED run.2 !! 0
    = Some (replaceResponse,
            FetchDidSucceedArgs EventUndefined (VRequest 1) (VResponse 2),
            [ORequest getRequest; ORequest getRequest;
             OResponse response200],
            Return (VResponse 3)))
    by reflexivity.
  split; [exact Hcall|].
  exact (fetchDidSucceed_replacement_propagates exampleMessage networkOk
           exampleParseURL (VRequest 0) None EventUndefined plugins
           [ORequest getRequest] run.1.1 run.1.2 run.2 0 _ _ _ _ eq_refl
           Hcall).
Defined.

(** A replacement does not last: the first [fetchDidSucceed] hook returns
    a new response, the second one returns nothing, and [wrappedFetch]
    returns [undefined], not the replacement. *)
Lemma replacement_reaches_the_caller_counterexample :
  let run := wrappedFetch exampleMessage networkOk exampleParseURL
               (VRequest 0) None EventUndefined
               [replaceResponse; voidFetchDidSucceed]
               [ORequest getRequest] in
  map call_outcome (hookCalls pluginEvents.FETCH_DID_SUCCEED run.2)
    = [Return (VResponse 3); Return VUndefined] ∧
  run.1.2 !! 3 = Some (OResponse response201) ∧
  run.1.1 = Ok VUndefined ∧
  ¬ replacement_reaches_the_caller run.1.1 run.2.
Proof.
  intros run. split; [reflexivity|]. split; [reflexivity|].
  split; [reflexivity|].
  intros Hclaim.
  destruct (Hclaim 0 _ (VResponse 3) eq_refl eq_refl eq_refl) as [_ Hres].
  discriminate Hres.
Qed.

Lemma transmission_options_witness :
  let opts := Some [("credentials", "include")] in
  let navigation := wrappedFetch exampleMessage networkOk exampleParseURL
                      (VRequest 0) opts EventUndefined []
                      [ORequest navigateRequest] in
  let other := wrappedFetch exampleMessage networkOk exampleParseURL
                 (VRequest 0) opts EventUndefined [] [ORequest postRequest] in
  let σn := [ORequest navigateRequest; ORequest navigateRequest] in
  let σo := [ORequest postRequest; ORequest postRequest] in
  (In (EvFetch (VRequest 0) None σn (Return (VResponse 2))) navigation.2 ∧
   fetchCalls navigation.2
     = [(VRequest 0, None, σn, Return (VResponse 2))] ∧
   (∃ filtered,
      clonesAt FilteredSnapshot navigation.2
        = [(VRequest 0, Ok filtered)] ∧
      duplicate_of σn (VRequest 0) filtered) ∧
   None = (if isNavigate (modeOf σn (VRequest 0)) then None else opts)) ∧
  (In (EvFetch (VRequest 0) opts σo (Return (VResponse 2))) other.2 ∧
   fetchCalls other.2 = [(VRequest 0, opts, σo, Return (VResponse 2))] ∧
   (∃ filtered,
      clonesAt FilteredSnapshot other.2 = [(VRequest 0, Ok filtered)] ∧
      duplicate_of σo (VRequest 0) filtered) ∧
   opts = (if isNavigate (modeOf σo (VRequest 0)) then None else opts)).
Proof.
  intros opts navigation other σn σo.
  assert (Hn : In (EvFetch (VRequest 0) None σn (Return (VResponse 2)))
                 navigation.2) by (simpl; auto).
  assert (Ho : In (EvFetch (VRequest 0) opts σo (Return (VResponse 2)))
                 other.2) by (simpl; auto).
  split.
  - split; [exact Hn|].
    exact (transmission_options exampleMessage networkOk exampleParseURL
             (VRequest 0) opts EventUndefined [] [ORequest navigateRequest]
             navigation.1.1 navigation.1.2 navigation.2 _ _ _ _ eq_refl
             Hn).
  - split; [exact Ho|].
    exact (transmission_options exampleMessage networkOk exampleParseURL
             (VRequest 0) opts EventUndefined [] [ORequest postRequest]
             other.1.1 other.1.2 other.2 _ _ _ _ eq_refl Ho).
Defined.

(** The options do not follow the method: two GET requests, one with the
    mode "navigate" and one with the mode "cors", are sent the first
    without the options and the second with them. No reading of the method
    tells the two apart. *)
Lemma options_follow_the_method_counterexample :
  let opts := Some [("credentials", "include")] in
  let navigation := wrappedFetch exampleMessage networkOk exampleParseURL
                      (VRequest 0) opts EventUndefined []
                      [ORequest navigateRequest] in
  let plain := wrappedFetch exampleMessage networkOk exampleParseURL
                 (VRequest 0) opts EventUndefined [] [ORequest getRequest] in
  req_method navigateRequest = req_method getRequest ∧
  fetchCalls navigation.2
    = [(VRequest 0, None,
        [ORequest navigateRequest; ORequest navigateRequest],
        Return (VResponse 2))] ∧
  fetchCalls plain.2
    = [(VRequest 0, opts, [ORequest getRequest; ORequest getRequest],
        Return (VResponse 2))] ∧
  ¬ ∃ indicates,
      options_follow_the_method indicates opts navigation.2 ∧
      options_follow_the_method indicates opts plain.2.
Proof.
  intros opts navigation plain.
  split; [reflexivity|]. split; [reflexivity|]. split; [reflexivity|].
  intros (indicates & Hn & Hp).
  assert (H1 : None = (if indicates "GET" then None else opts)).
  { apply (Hn (VRequest 0) None
             [ORequest navigateRequest; ORequest navigateRequest]
             (Return (VResponse 2)) navigateRequest);
      [simpl; auto|reflexivity]. }
  assert (H2 : opts = (if indicates "GET" then None else opts)).
  { apply (Hp (VRequest 0) opts
             [ORequest getRequest; ORequest getRequest]
             (Return (VResponse 2)) getRequest);
      [simpl; auto|reflexivity]. }
  destruct (indicates "GET"); discriminate.
Qed.

Lemma fetchDidFail_throw_propagates_witness :
  let plugins := [failLogger; throwingFetchDidFail; failLogger] in
  let run := wrappedFetch exampleMessage networkDown exampleParseURL
               (VRequest 0) None EventUndefined plugins
               [ORequest postRequest] in
  let call := EvCall throwingFetchDidFail pluginEvents.FETCH_DID_FAIL
                (FetchDidFailArgs (VError 1) EventUndefined (VRequest 5)
                   (VRequest 6))
                [ORequest (mkRequest "/x" "POST" "cors" (Some "payload")
                             true);
                 ORequest postRequest; ORequest postRequest;
                 ORequest postRequest; ORequest postRequest;
                 ORequest postRequest; ORequest postRequest]
                (Throws (VError 9)) in
  In call run.2 ∧
  run.1.1 = Threw (VError 9) ∧
  last run.2 = Some call ∧
  ∃ before after,
    pluginUtils.filter plugins pluginEvents.FETCH_DID_FAIL
    = before ++ throwingFetchDidFail :: after ∧
    map call_plugin (hookCalls pluginEvents.FETCH_DID_FAIL run.2)
    = before ++ [throwingFetchDidFail].
Proof.
  intros plugins run call.
  assert (Hin : In call run.2) by (simpl; auto 12).
  split; [exact Hin|].
  exact (fetchDidFail_throw_propagates exampleMessage networkDown
           exampleParseURL (VRequest 0) None EventUndefined plugins
           [ORequest postRequest] run.1.1 run.1.2 run.2 _ _ _ _ eq_refl
           Hin).
Defined.

Lemma no_original_snapshot_without_fetchDidFail_witness :
  let plugins := [rewriteTo "/y"; readThenThrow] in
  let run := wrappedFetch exampleMessage networkOk exampleParseURL
               (VRequest 0) None EventUndefined plugins
               [ORequest postRequest] in
  pluginUtils.filter plugins pluginEvents.FETCH_DID_FAIL = [] ∧
  clonesAt OriginalSnapshot run.2 = [] ∧
  clonesAt FailOriginalCopy run.2 = [] ∧
  clonesAt FailFilteredCopy run.2 = [] ∧
  hookCalls pluginEvents.FETCH_DID_FAIL run.2 = [].
Proof.
  intros plugins run.
  split; [reflexivity|].
  exact (no_original_snapshot_without_fetchDidFail exampleMessage networkOk
           exampleParseURL (VRequest 0) None EventUndefined plugins
           [ORequest postRequest] run.1.1 run.1.2 run.2 eq_refl eq_refl).
Defined.

Lemma fetchDidSucceed_void_return_is_assigned_witness :
  let plugins := [replaceResponse; voidFetchDidSucceed] in
  let run := wrappedFetch exampleMessage networkOk exampleParseURL
               (VRequest 0) None EventUndefined plugins
               [ORequest getRequest] in
  last (hookCalls pluginEvents.FETCH_DID_SUCCEED run.2)
    = Some (voidFetchDidSucceed,
            FetchDidSucceedArgs EventUndefined (VRequest 1) (VResponse 3),
            [ORequest getRequest; ORequest getRequest;
             OResponse response200; OResponse response201],
            Return VUndefined) ∧
  run.1.1 = Ok VUndefined.
Proof.
  intros plugins run.
  assert (Hlast : last (hookCalls pluginEvents.FETCH_DID_SUCCEED run.2)
    = Some (voidFetchDidSucceed,
            FetchDidSucceedArgs EventUndefined (VRequest 1) (VResponse 3),
            [ORequest getRequest; ORequest getRequest;
             OResponse response200; OResponse response201],
            Return VUndefined))
    by reflexivity.
  split; [exact Hlast|].
  exact (proj2 (fetchDidSucceed_void_return_is_assigned exampleMessage
                  networkOk exampleParseURL (VRequest 0) None
                  EventUndefined plugins [ORequest getRequest] run.1.1
                  run.1.2 run.2 eq_refl)
           _ Hlast eq_refl).
Defined.

(** ** Three scenarios *)

(** A request given as a URL, no plugin, a transmission that succeeds: the
    response of the transmission is returned. *)
Example no_plugins_returns_the_response :
  let run := wrappedFetch exampleMessage networkOk exampleParseURL
               (VString "https://example.com/a") None EventUndefined [] [] in
  run.1.1 = Ok (VResponse 2) ∧
  run.1.2 !! 2 = Some (OResponse response200).
Proof. by split. Qed.

(** A request to "/x" and one [requestWillFetch] hook that rewrites it to
    "/y": the transmission gets a request whose URL is "/y". *)
Example rewritten_request_is_transmitted :
  let run := wrappedFetch exampleMessage networkOk exampleParseURL
               (VString "/x") None EventUndefined [rewriteTo "/y"] [] in
  ∃ l init σf out r,
    fetchCalls run.2 = [(VRequest l, init, σf, out)] ∧
    σf !! l = Some (ORequest r) ∧ req_url r = "/y".
Proof. intros run. by eexists _, _, _, _, _. Qed.

(** A [requestWillFetch] hook that returns a [Response]: the response can
    be cloned and has no [mode], so it is given to the host [fetch], with
    the options of the caller, although the request of the caller was a
    navigation. *)
Example response_from_a_hook_is_transmitted :
  let opts := Some [("credentials", "include")] in
  let run := wrappedFetch exampleMessage networkOk exampleParseURL
               (VRequest 0) opts EventUndefined [returnsResponse]
               [ORequest navigateRequest] in
  clonesAt FilteredSnapshot run.2 = [(VResponse 2, Ok (VResponse 3))] ∧
  ∃ σf out,
    fetchCalls run.2 = [(VResponse 2, opts, σf, out)] ∧
    σf !! 2 = Some (OResponse response201).
Proof. intros opts run. split; [reflexivity|]. by eexists _, _. Qed.

(** ** The further properties at concrete invocations *)

Lemma preload_rejection_propagates_witness :
  (∀ s, VString "/a" = VString s → exampleParseURL s ≠ None) ∧
  ∃ σ',
    wrappedFetch exampleMessage networkOk exampleParseURL (VString "/a")
      None (FetchEvent 1 (Some (Rejected (VError 5))))
      [rewriteTo "/y"; failLogger] []
    = (Threw (VError 5), σ', []).
Proof.
  assert (Hurl : ∀ s, VString "/a" = VString s → exampleParseURL s ≠ None).
  { intros s [= <-]. vm_compute. discriminate. }
  split; [exact Hurl|].
  exact (preload_rejection_propagates exampleMessage networkOk
           exampleParseURL (VString "/a") None 1 (VError 5)
           [rewriteTo "/y"; failLogger] [] Hurl).
Defined.

Lemma without_plugins_is_fetch_witness :
  leavesAtPreload EventUndefined = false ∧
  [ORequest navigateRequest] !! 0 = Some (ORequest navigateRequest) ∧
  req_bodyUsed navigateRequest = false ∧
  wrappedFetch exampleMessage networkOk exampleParseURL (VRequest 0)
    (Some [("credentials", "include")]) EventUndefined []
    [ORequest navigateRequest]
  = (Ok (VResponse 2),
     [ORequest navigateRequest; ORequest navigateRequest;
      OResponse response200],
     [EvClone FilteredSnapshot (VRequest 0) (Ok (VRequest 1));
      EvFetch (VRequest 0) None
        [ORequest navigateRequest; ORequest navigateRequest]
        (Return (VResponse 2))]).
Proof.
  split; [reflexivity|]. split; [reflexivity|]. split; [reflexivity|].
  exact (without_plugins_is_fetch exampleMessage networkOk exampleParseURL
           0 navigateRequest (Some [("credentials", "include")])
           EventUndefined [ORequest navigateRequest] eq_refl eq_refl
           eq_refl).
Defined.

Lemma success_never_runs_failure_hooks_witness :
  let run := wrappedFetch exampleMessage networkOk exampleParseURL
               (VRequest 0) None EventUndefined [replaceResponse; failLogger]
               [ORequest postRequest] in
  run.1.1 = Ok (VResponse 4) ∧
  hookCalls pluginEvents.FETCH_DID_FAIL run.2 = [] ∧
  clonesAt FailOriginalCopy run.2 = [] ∧
  clonesAt FailFilteredCopy run.2 = [].
Proof.
  intros run. split; [reflexivity|].
  exact (success_never_runs_failure_hooks exampleMessage networkOk
           exampleParseURL (VRequest 0) None EventUndefined
           [replaceResponse; failLogger] [ORequest postRequest]
           (VResponse 4) run.1.2 run.2 eq_refl).
Defined.

Lemma exceptions_are_never_swallowed_witness :
  let run := wrappedFetch exampleMessage networkDown exampleParseURL
               (VRequest 0) None EventUndefined [] [ORequest postRequest] in
  let a := EvFetch (VRequest 0) None
             [ORequest postRequest; ORequest postRequest]
             (Throws (VError 1)) in
  In a run.2 ∧ threw a = true ∧ ∃ e, run.1.1 = Threw e.
Proof.
  intros run a.
  assert (Hin : In a run.2) by (simpl; auto).
  split; [exact Hin|]. split; [reflexivity|].
  exact (exceptions_are_never_swallowed exampleMessage networkDown
           exampleParseURL (VRequest 0) None EventUndefined []
           [ORequest postRequest] run.1.1 run.1.2 run.2 a eq_refl Hin
           eq_refl).
Defined.

Lemma actions_follow_the_phases_witness :
  in_order
    (wrappedFetch exampleMessage networkDown exampleParseURL (VRequest 0)
       None EventUndefined [rewriteTo "/y"; replaceResponse; failLogger]
       [ORequest postRequest]).2.
Proof.
  exact (actions_follow_the_phases exampleMessage networkDown
           exampleParseURL (VRequest 0) None EventUndefined
           [rewriteTo "/y"; replaceResponse; failLogger]
           [ORequest postRequest] _ _ _ eq_refl).
Defined.

Lemma fetchDidSucceed_hooks_share_the_snapshot_witness :
  let run := wrappedFetch exampleMessage networkOk exampleParseURL
               (VRequest 0) None EventUndefined
               [replaceResponse; voidFetchDidSucceed]
               [ORequest getRequest] in
  let c := (voidFetchDidSucceed,
            FetchDidSucceedArgs EventUndefined (VRequest 1) (VResponse 3),
            [ORequest getRequest; ORequest getRequest;
             OResponse response200; OResponse response201],
            Return VUndefined) in
  In c (hookCalls pluginEvents.FETCH_DID_SUCCEED run.2) ∧
  ∃ rq filtered init σf fetchResponse,
    clonesAt FilteredSnapshot run.2 = [(rq, Ok filtered)] ∧
    fetchCalls run.2 = [(rq, init, σf, Return fetchResponse)] ∧
    (∃ r, call_args c = FetchDidSucceedArgs EventUndefined filtered r) ∧
    ∃ c0, hookCalls pluginEvents.FETCH_DID_SUCCEED run.2 !! 0 = Some c0 ∧
      call_args c0
      = FetchDidSucceedArgs EventUndefined filtered fetchResponse.
Proof.
  intros run c.
  assert (Hin : In c (hookCalls pluginEvents.FETCH_DID_SUCCEED run.2))
    by (simpl; auto).
  split; [exact Hin|].
  exact (fetchDidSucceed_hooks_share_the_snapshot exampleMessage networkOk
           exampleParseURL (VRequest 0) None EventUndefined
           [replaceResponse; voidFetchDidSucceed] [ORequest getRequest]
           run.1.1 run.1.2 run.2 c eq_refl Hin).
Defined.

Lemma hooks_get_the_event_of_the_caller_witness :
  let run := wrappedFetch exampleMessage networkOk exampleParseURL
               (VRequest 0) None (PlainEvent 4) [replaceResponse]
               [ORequest getRequest] in
  let args := FetchDidSucceedArgs (PlainEvent 4) (VRequest 1)
                (VResponse 2) in
  let σh := [ORequest getRequest; ORequest getRequest;
             OResponse response200] in
  In (EvCall replaceResponse pluginEvents.FETCH_DID_SUCCEED args σh
        (Return (VResponse 3))) run.2 ∧
  args_event args = PlainEvent 4.
Proof.
  intros run args σh.
  assert (Hin : In (EvCall replaceResponse pluginEvents.FETCH_DID_SUCCEED
                      args σh (Return (VResponse 3))) run.2)
    by (simpl; auto).
  split; [exact Hin|].
  exact (hooks_get_the_event_of_the_caller exampleMessage networkOk
           exampleParseURL (VRequest 0) None (PlainEvent 4)
           [replaceResponse] [ORequest getRequest] run.1.1 run.1.2 run.2
           _ _ _ _ _ eq_refl Hin).
Defined.

Lemma hooks_are_called_in_registration_order_witness :
  let plugins := [failLogger; rewriteTo "/y"; throwingFetchDidFail;
                  rewriteTo "/z"; failLogger] in
  let run := wrappedFetch exampleMessage networkDown exampleParseURL
               (VRequest 0) None EventUndefined plugins
               [ORequest postRequest] in
  map call_plugin (hookCalls pluginEvents.REQUEST_WILL_FETCH run.2)
    `prefix_of`
    pluginUtils.filter plugins pluginEvents.REQUEST_WILL_FETCH ∧
  map call_plugin (hookCalls pluginEvents.FETCH_DID_SUCCEED run.2)
    `prefix_of`
    pluginUtils.filter plugins pluginEvents.FETCH_DID_SUCCEED ∧
  map call_plugin (hookCalls pluginEvents.FETCH_DID_FAIL run.2)
    `prefix_of`
    pluginUtils.filter plugins pluginEvents.FETCH_DID_FAIL.
Proof.
  intros plugins run.
  exact (hooks_are_called_in_registration_order exampleMessage networkDown
           exampleParseURL (VRequest 0) None EventUndefined plugins
           [ORequest postRequest] run.1.1 run.1.2 run.2 eq_refl).
Defined.

Lemma hook_copy_failure_is_a_plugin_error_witness :
  let used := mkRequest "/x" "POST" "cors" (Some "payload") true in
  let run := wrappedFetch exampleMessage networkOk exampleParseURL
               (VRequest 1) None EventUndefined [rewriteTo "/y"]
               [ORequest postRequest; ORequest used] in
  In (VRequest 1, Threw TypeError_body_used) (clonesAt HookCopy run.2) ∧
  run.1.1 = Threw (VWorkboxError
                      (newWorkboxError exampleMessage
                         plugin_error_request_will_fetch
                         (detailsThrownError TypeError_body_used))) ∧
  Forall (λ c, ∃ v, call_outcome c = Return v)
    (hookCalls pluginEvents.REQUEST_WILL_FETCH run.2) ∧
  fetchCalls run.2 = [] ∧
  hookCalls pluginEvents.FETCH_DID_FAIL run.2 = [].
Proof.
  intros used run.
  assert (Hin : In (VRequest 1, Threw TypeError_body_used)
                  (clonesAt HookCopy run.2)) by (simpl; auto).
  split; [exact Hin|].
  exact (hook_copy_failure_is_a_plugin_error exampleMessage networkOk
           exampleParseURL (VRequest 1) None EventUndefined
           [rewriteTo "/y"] [ORequest postRequest; ORequest used]
           run.1.1 run.1.2 run.2 _ _ eq_refl Hin).
Defined.

Lemma snapshot_failure_is_thrown_as_it_is_witness :
  let used := mkRequest "/x" "POST" "cors" (Some "payload") true in
  let run := wrappedFetch exampleMessage networkOk exampleParseURL
               (VRequest 0) None EventUndefined [replaceResponse; failLogger]
               [ORequest used] in
  (In (VRequest 0, Threw TypeError_body_used)
      (clonesAt OriginalSnapshot run.2) ∨
   In (VRequest 0, Threw TypeError_body_used)
      (clonesAt FilteredSnapshot run.2)) ∧
  run.1.1 = Threw TypeError_body_used ∧
  fetchCalls run.2 = [] ∧
  hookCalls pluginEvents.FETCH_DID_SUCCEED run.2 = [] ∧
  hookCalls pluginEvents.FETCH_DID_FAIL run.2 = [].
Proof.
  intros used run.
  assert (Hin : In (VRequest 0, Threw TypeError_body_used)
                  (clonesAt OriginalSnapshot run.2) ∨
                In (VRequest 0, Threw TypeError_body_used)
                  (clonesAt FilteredSnapshot run.2))
    by (left; simpl; auto).
  split; [exact Hin|].
  exact (snapshot_failure_is_thrown_as_it_is exampleMessage networkOk
           exampleParseURL (VRequest 0) None EventUndefined
           [replaceResponse; failLogger] [ORequest used] run.1.1 run.1.2
           run.2 _ _ eq_refl Hin).
Defined.

Lemma failure_copies_come_from_the_snapshots_witness :
  let run := wrappedFetch exampleMessage networkDown exampleParseURL
               (VRequest 0) None EventUndefined [rewriteTo "/y"; failLogger]
               [ORequest postRequest] in
  (∀ src r, In (src, r) (clonesAt FailOriginalCopy run.2) →
     clonesAt OriginalSnapshot run.2
     = [(normalize (VRequest 0) [ORequest postRequest], Ok src)]) ∧
  (∀ src r, In (src, r) (clonesAt FailFilteredCopy run.2) →
     ∃ rq init σf out,
       clonesAt FilteredSnapshot run.2 = [(rq, Ok src)] ∧
       fetchCalls run.2 = [(rq, init, σf, out)]).
Proof.
  intros run.
  exact (failure_copies_come_from_the_snapshots exampleMessage networkDown
           exampleParseURL (VRequest 0) None EventUndefined
           [rewriteTo "/y"; failLogger] [ORequest postRequest] run.1.1
           run.1.2 run.2 eq_refl).
Defined.

Lemma plugin_without_hooks_changes_nothing_witness :
  let idle := mkPlugin None None None in
  requestWillFetch idle = None ∧
  fetchDidSucceed idle = None ∧
  fetchDidFail idle = None ∧
  wrappedFetch exampleMessage networkOk exampleParseURL (VString "/x") None
    EventUndefined ([rewriteTo "/y"] ++ idle :: [replaceResponse]) []
  = wrappedFetch exampleMessage networkOk exampleParseURL (VString "/x") None
      EventUndefined ([rewriteTo "/y"] ++ [replaceResponse]) [].
Proof.
  intros idle.
  split; [reflexivity|]. split; [reflexivity|]. split; [reflexivity|].
  exact (plugin_without_hooks_changes_nothing exampleMessage networkOk
           exampleParseURL (VString "/x") None EventUndefined
           [rewriteTo "/y"] idle [replaceResponse] [] eq_refl eq_refl
           eq_refl).
Defined.

Lemma fetchDidFail_chain_when_copies_succeed_witness :
  let plugins := [failLogger; rewriteTo "/y"; failLogger] in
  let σ := [ORequest postRequest] in
  let run := wrappedFetch exampleMessage networkDown exampleParseURL
               (VRequest 0) None EventUndefined plugins σ in
  (∃ rq init σf, In (EvFetch rq init σf (Throws (VError 1))) run.2) ∧
  run.1.1 = Threw (VError 1) ∧
  map call_plugin (hookCalls pluginEvents.FETCH_DID_FAIL run.2)
    = pluginUtils.filter plugins pluginEvents.FETCH_DID_FAIL ∧
  ∃ rq filtered,
    clonesAt FilteredSnapshot run.2 = [(rq, Ok filtered)] ∧
    ∀ c, In c (hookCalls pluginEvents.FETCH_DID_FAIL run.2) →
      ∃ originalRequest o f pre post,
        clonesAt OriginalSnapshot run.2
          = [(normalize (VRequest 0) σ, Ok originalRequest)] ∧
        run.2 = pre ++ [EvClone FailOriginalCopy originalRequest (Ok o);
                        EvClone FailFilteredCopy filtered (Ok f);
                        EvCall (call_plugin c) pluginEvents.FETCH_DID_FAIL
                          (FetchDidFailArgs (VError 1) EventUndefined o f)
                          (call_heap c) (call_outcome c)] ++ post ∧
        duplicate_of (call_heap c) originalRequest o ∧
        duplicate_of (call_heap c) filtered f.
Proof.
  intros plugins σ run.
  assert (Hthrown : ∃ rq init σf,
            In (EvFetch rq init σf (Throws (VError 1))) run.2).
  { eexists _, _, _. simpl. do 4 right. left. reflexivity. }
  split; [exact Hthrown|].
  refine (fetchDidFail_chain_when_copies_succeed exampleMessage networkDown
            exampleParseURL (VRequest 0) None EventUndefined plugins σ
            run.1.1 run.1.2 run.2 (VError 1) eq_refl (or_introl Hthrown)
            _ _ _).
  - intros c [<-|[<-|[]]]; by eexists.
  - intros src e [Heq|[Heq|[]]]; discriminate Heq.
  - intros src e [Heq|[Heq|[]]]; discriminate Heq.
Defined.

Lemma invalid_url_string_throws_witness :
  exampleParseURL "http://[" = None ∧
  wrappedFetch exampleMessage networkOk exampleParseURL (VString "http://[")
    None (FetchEvent 1 (Some (Fulfilled (VResponse 0))))
    [rewriteTo "/y"; failLogger] [OResponse response200]
  = (Threw TypeError_invalid_url, [OResponse response200], []).
Proof.
  split; [reflexivity|].
  exact (invalid_url_string_throws exampleMessage networkOk exampleParseURL
           "http://[" None (FetchEvent 1 (Some (Fulfilled (VResponse 0))))
           [rewriteTo "/y"; failLogger] [OResponse response200] eq_refl).
Defined.
